(** * CameraManager (admin.js): a shallow embedding of the page controller

    The repository ships two variants of the controller, [src/admin.js]
    and [src/up/admin.js].  Every function embedded below
    ([updateButtonStates], [handleControlAction], [startStatusPolling],
    [updateStatusDisplay], [initVideoStream] with its error listener,
    [destroyVideoStream], [renderCameraGrid], [createCameraCard],
    [renderCameraCard], the add-camera listener and [initialLoadCameras])
    is textually the same in both; the variants differ in the Hls tuning
    options and in the event that triggers [video.play()], neither of which
    is state of the controller.

    Conventions of the embedding.
    - A JavaScript string is a Rocq [string] whose characters are UTF-16
      code units below 256.
    - The DOM is kept as the data the controller reads back: the cards of
      [#camera-grid] in document order, the value of [#new-camera-id], the
      text of [#active-cam-count], and the notifications appended to
      [#notifications].
    - The controller interpolates camera ids into CSS selectors and into the
      markup of a card.  The embedding follows the source for the ids on
      which such a selector is a plain id selector that can only select a
      card, the ids that satisfy [selector_safe] below: there
      [document.querySelector('#camera-' + id)] is the first card whose id
      is [camera-<id>].  For other ids the browser may return null, throw a
      SyntaxError or select another element; these cases are outside the
      embedding, and every property whose statement depends on what a
      selector returns has the safety of the ids as a hypothesis
      ([page_safe], [safely_reachable]).
    - An [async] function is split at its [await] into the part that sends
      the request and the part that resumes on the outcome, which is an
      argument of the latter; the two are separate events of the page, and
      the function named as in the source is their composition.
    - Calls into collaborators ([fetch], [alert], the Hls player) are
      recorded in logs carried by the page state.
    - [loadRecordings], [initSystemMonitoring] and [updateSystemInfo] only
      render server data and are not embedded; [console] output is left
      out. *)

From stdpp Require Import base strings list gmap.
From Stdlib Require Import Ascii String ZArith.

Local Open Scope string_scope.
Local Open Scope list_scope.

(** ** JavaScript strings *)

(** WhiteSpace and LineTerminator code units below 256 (ECMAScript
    [String.prototype.trim]): TAB, LF, VT, FF, CR, SP and NBSP. *)
Definition is_white_space (c : ascii) : bool :=
  let n := nat_of_ascii c in
  ((9 <=? n)%nat && (n <=? 13)%nat) || (n =? 32)%nat || (n =? 160)%nat.

Fixpoint trimStart (s : string) : string :=
  match s with
  | EmptyString => EmptyString
  | String c s' => if is_white_space c then trimStart s' else s
  end.

Fixpoint trimEnd (s : string) : string :=
  match s with
  | EmptyString => EmptyString
  | String c s' =>
      match trimEnd s' with
      | EmptyString => if is_white_space c then EmptyString else String c EmptyString
      | t => String c t
      end
  end.

Definition trim (s : string) : string := trimEnd (trimStart s).

(** Truthiness of a string: only the empty string is falsy. *)
Definition truthy (s : string) : bool :=
  match s with EmptyString => false | _ => true end.

(** [Array.prototype.includes] on an array of strings. *)
Definition includes (l : list string) (x : string) : bool := bool_decide (x ∈ l).

(** ** The Hls player, a collaborator

    A player instance is the record of the calls the controller makes on it,
    oldest first, together with the camera id its closure captured. *)

Inductive HlsCall :=
| LoadSource (url : string)
| AttachMedia
| StartLoad
| RecoverMediaError
| Destroy.

Global Instance HlsCall_eq_dec : EqDecision HlsCall.
Proof. solve_decision. Defined.

Record Player := {
  hls_camera : string;
  hls_calls : list HlsCall
}.

Global Instance Player_eq_dec : EqDecision Player.
Proof. solve_decision. Defined.

Definition hls_call (c : HlsCall) (p : Player) : Player :=
  {| hls_camera := hls_camera p; hls_calls := hls_calls p ++ [c] |}.

(** [Hls.ErrorTypes] of hls.js 1.1.4, the version the page loads. *)
Inductive ErrorType :=
| NETWORK_ERROR
| MEDIA_ERROR
| KEY_SYSTEM_ERROR
| MUX_ERROR
| OTHER_ERROR.

(** The [data] argument of an [Hls.Events.ERROR] listener. *)
Record ErrorData := {
  fatal : bool;
  type : ErrorType
}.

(** The listener registered by [initVideoStream]:
<<
    hls.on(Hls.Events.ERROR, (event, data) => {
        if (data.fatal) {
            switch(data.type) {
                case Hls.ErrorTypes.NETWORK_ERROR: hls.startLoad(); break;
                case Hls.ErrorTypes.MEDIA_ERROR: hls.recoverMediaError(); break;
                default: hls.destroy(); break;
            }
        }
    });
>> *)
Definition on_hls_error (data : ErrorData) (hls : Player) : Player :=
  if fatal data then
    match type data with
    | NETWORK_ERROR => hls_call StartLoad hls
    | MEDIA_ERROR => hls_call RecoverMediaError hls
    | _ => hls_call Destroy hls
    end
  else hls.

(** The listener run on a sequence of error events, in arrival order. *)
Definition on_hls_errors (errors : list ErrorData) (hls : Player) : Player :=
  foldl (fun p data => on_hls_error data p) hls errors.

(** The player has been destroyed: the handle is released. *)
Definition destroyed (p : Player) : bool := bool_decide (Destroy ∈ hls_calls p).


(** The template literal [`/static/hls/camera_${cameraId}/playlist.m3u8`]. *)
Definition hlsUrl (cameraId : string) : string :=
  "/static/hls/camera_" +:+ cameraId +:+ "/playlist.m3u8".

(** ** The DOM of a camera card *)

(** A [<video>] element.  [video_src] is its [src] attribute; [video_hls] is
    its [hls] property, which [destroyVideoStream] reads and which holds the
    index of a player when set. *)
Record Video := {
  video_src : option string;
  video_hls : option nat
}.

Global Instance Video_eq_dec : EqDecision Video.
Proof. solve_decision. Defined.

(** A card rendered by [renderCameraCard]: the id [camera-<card_camera>],
    the class tokens of the indicator [<div>], the children of
    [.video-container], and the [disabled] flags of the two buttons. *)
Record Card := {
  card_camera : string;
  indicator_class : list string;
  videos : list Video;
  start_disabled : bool;
  stop_disabled : bool
}.

Global Instance Card_eq_dec : EqDecision Card.
Proof. solve_decision. Defined.

Definition set_indicator_class (cls : list string) (c : Card) : Card :=
  {| card_camera := card_camera c; indicator_class := cls; videos := videos c;
     start_disabled := start_disabled c; stop_disabled := stop_disabled c |}.

Definition set_videos (vs : list Video) (c : Card) : Card :=
  {| card_camera := card_camera c; indicator_class := indicator_class c;
     videos := vs;
     start_disabled := start_disabled c; stop_disabled := stop_disabled c |}.

Definition set_buttons (start stop : bool) (c : Card) : Card :=
  {| card_camera := card_camera c; indicator_class := indicator_class c;
     videos := videos c; start_disabled := start; stop_disabled := stop |}.

(** [querySelector]: the first card, in document order, that the selector
    matches. *)
Fixpoint query (matches : Card -> bool) (g : list Card) : option Card :=
  match g with
  | [] => None
  | c :: g' => if matches c then Some c else query matches g'
  end.

(** In-place mutation of the element [query] returns (nothing happens when
    there is none). *)
Fixpoint mutate (matches : Card -> bool) (f : Card -> Card) (g : list Card)
  : list Card :=
  match g with
  | [] => []
  | c :: g' => if matches c then f c :: g' else c :: mutate matches f g'
  end.

(** [classList.contains(token)]. *)
Definition class_contains (token : string) (cls : list string) : bool :=
  bool_decide (token ∈ cls).

(** [classList.toggle(token, force)]. *)
Definition class_toggle (token : string) (force : bool) (cls : list string)
  : list string :=
  if force then (if class_contains token cls then cls else cls ++ [token])
  else filter (fun t => t ≠ token) cls.

(** [card.querySelector('.status-indicator')] finds the indicator while its
    class attribute still carries the token. *)
Definition has_indicator (c : Card) : bool :=
  class_contains "status-indicator" (indicator_class c).

(** The selector [`#camera-${cameraId}`]; [`#camera-${cameraId}
    .video-container`] matches the same cards, every card having a
    container.  This is what the selector matches when [cameraId] and the
    ids of the cards satisfy [selector_safe]; for other ids the result of
    the interpolated selector is not described by this definition. *)
Definition is_camera (cameraId : string) (c : Card) : bool :=
  bool_decide (card_camera c = cameraId).

(** The selector [`#camera-${camId} .status-indicator`], under the same
    condition on the ids as [is_camera]. *)
Definition is_camera_indicator (camId : string) (c : Card) : bool :=
  is_camera camId c && has_indicator c.

(** ** Requests and their outcomes *)

(** A [fetch] call.  [req_body] is the array bound to [cameras] in the object
    given to [JSON.stringify], when the request has a body. *)
Record Request := {
  req_method : string;
  req_url : string;
  req_content_type : option string;
  req_body : option (list string)
}.

Global Instance Request_eq_dec : EqDecision Request.
Proof. solve_decision. Defined.

(** The parsed body of a control response, as [handleControlAction] reads
    it: [null] (reading [data.message] throws a TypeError with the given
    text) or a value whose [message] property is absent or a string. *)
Inductive Body :=
| NullBody (type_error : string)
| ObjectBody (message : option string).

(** What the two awaits of [handleControlAction] resolve to. *)
Inductive FetchOutcome :=
| FetchRejected (error_message : string)
| JsonRejected (ok : bool) (error_message : string)
| Replied (ok : bool) (data : Body).

(** One entry of [active_streams]; [main] is the truthiness of its [main]
    property. *)
Record StreamInfo := { main : bool }.

(** What the awaits of a status fetch resolve to: a rejection (of [fetch],
    of [response.json()], or of destructuring a [null] body), or a body
    whose [active_streams] is an object ([Some]) or undefined ([None]). *)
Inductive PollOutcome :=
| PollRejected
| PollReplied (active_streams : option (gmap string StreamInfo)).

(** [Object.keys] of an [active_streams] object: its own keys, each once.
    The keys come in the order the map enumerates them, which is not the
    order JavaScript gives; nothing below depends on it. *)
Definition object_keys (o : gmap string StreamInfo) : list string :=
  (map_to_list o).*1.

(** ** The page state *)

Record Page := {
  cameras : list string;
  grid : list Card;
  new_camera_id : string;
  active_cam_count : nat;
  notifications : list (string * string);
  alerts : list string;
  requests : list Request;
  players : list Player;
  hls_supported : bool;
  native_hls : bool
}.

Definition set_cameras (l : list string) (st : Page) : Page :=
  {| cameras := l; grid := grid st; new_camera_id := new_camera_id st;
     active_cam_count := active_cam_count st; notifications := notifications st;
     alerts := alerts st; requests := requests st; players := players st;
     hls_supported := hls_supported st; native_hls := native_hls st |}.

Definition set_grid (g : list Card) (st : Page) : Page :=
  {| cameras := cameras st; grid := g; new_camera_id := new_camera_id st;
     active_cam_count := active_cam_count st; notifications := notifications st;
     alerts := alerts st; requests := requests st; players := players st;
     hls_supported := hls_supported st; native_hls := native_hls st |}.

Definition set_new_camera_id (v : string) (st : Page) : Page :=
  {| cameras := cameras st; grid := grid st; new_camera_id := v;
     active_cam_count := active_cam_count st; notifications := notifications st;
     alerts := alerts st; requests := requests st; players := players st;
     hls_supported := hls_supported st; native_hls := native_hls st |}.

Definition set_active_cam_count (n : nat) (st : Page) : Page :=
  {| cameras := cameras st; grid := grid st; new_camera_id := new_camera_id st;
     active_cam_count := n; notifications := notifications st;
     alerts := alerts st; requests := requests st; players := players st;
     hls_supported := hls_supported st; native_hls := native_hls st |}.

Definition set_players (ps : list Player) (st : Page) : Page :=
  {| cameras := cameras st; grid := grid st; new_camera_id := new_camera_id st;
     active_cam_count := active_cam_count st; notifications := notifications st;
     alerts := alerts st; requests := requests st; players := ps;
     hls_supported := hls_supported st; native_hls := native_hls st |}.

(** [fetch(url, init)]: the request leaves the page. *)
Definition fetch (r : Request) (st : Page) : Page :=
  {| cameras := cameras st; grid := grid st; new_camera_id := new_camera_id st;
     active_cam_count := active_cam_count st; notifications := notifications st;
     alerts := alerts st; requests := requests st ++ [r]; players := players st;
     hls_supported := hls_supported st; native_hls := native_hls st |}.

(** [alert(text)]. *)
Definition alert (text : string) (st : Page) : Page :=
  {| cameras := cameras st; grid := grid st; new_camera_id := new_camera_id st;
     active_cam_count := active_cam_count st; notifications := notifications st;
     alerts := alerts st ++ [text]; requests := requests st; players := players st;
     hls_supported := hls_supported st; native_hls := native_hls st |}.

(** [showNotification(message, type)] appends a notification to
    [#notifications]; its removal five seconds later is not modelled. *)
Definition showNotification (message type : string) (st : Page) : Page :=
  {| cameras := cameras st; grid := grid st; new_camera_id := new_camera_id st;
     active_cam_count := active_cam_count st;
     notifications := notifications st ++ [(message, type)];
     alerts := alerts st; requests := requests st; players := players st;
     hls_supported := hls_supported st; native_hls := native_hls st |}.

(** ** The controller *)

(** The body of [updateButtonStates] once the card is found: both buttons
    are set, and the indicator, if [card.querySelector('.status-indicator')]
    finds it, has its [active] class toggled. *)
Definition press (isStarted : bool) (card : Card) : Card :=
  let card := set_buttons isStarted (negb isStarted) card in
  if has_indicator card then
    set_indicator_class (class_toggle "active" isStarted (indicator_class card)) card
  else card.

(** [updateButtonStates(cameraId, isStarted)]. *)
Definition updateButtonStates (cameraId : string) (isStarted : bool) (st : Page)
  : Page :=
  set_grid (mutate (is_camera cameraId) (press isStarted) (grid st)) st.

(** The element [document.createElement('video')] returns; the attributes
    [initVideoStream] sets on it ([className], [controls], [muted],
    [autoplay], [playsInline]) are constants and are left out. *)
Definition new_video : Video := {| video_src := None; video_hls := None |}.

(** [initVideoStream(cameraId)].  [Hls.isSupported()] and
    [video.canPlayType('application/vnd.apple.mpegurl')] are read from the
    page state. *)
Definition initVideoStream (cameraId : string) (st : Page) : Page :=
  match query (is_camera cameraId) (grid st) with
  | None => st
  | Some _ =>
      if hls_supported st then
        let hls := {| hls_camera := cameraId;
                      hls_calls := [LoadSource (hlsUrl cameraId); AttachMedia] |} in
        set_players (players st ++ [hls])
          (set_grid (mutate (is_camera cameraId) (set_videos [new_video]) (grid st)) st)
      else if native_hls st then
        let video := {| video_src := Some (hlsUrl cameraId); video_hls := None |} in
        set_grid (mutate (is_camera cameraId) (set_videos [video]) (grid st)) st
      else
        set_grid (mutate (is_camera cameraId) (set_videos [new_video]) (grid st)) st
  end.

(** [destroyVideoStream(cameraId)]. *)
Definition destroyVideoStream (cameraId : string) (st : Page) : Page :=
  match query (is_camera cameraId) (grid st) with
  | None => st
  | Some card =>
      match videos card with
      | [] => st
      | video :: rest =>
          let st :=
            match video_hls video with
            | Some i => set_players (alter (hls_call Destroy) i (players st)) st
            | None => st
            end in
          set_grid (mutate (is_camera cameraId) (set_videos rest) (grid st)) st
      end
  end.

Definition control_request (endpoint cameraId : string) : Request :=
  {| req_method := "POST"; req_url := endpoint;
     req_content_type := Some "application/json";
     req_body := Some [cameraId] |}.

(** The [catch] block of [handleControlAction], entered with
    [error.message]. *)
Definition handleControlAction_catch
  (cameraId action error_message : string) (st : Page) : Page :=
  updateButtonStates cameraId (negb (bool_decide (action = "start")))
    (alert ("Failed to " +:+ action +:+ " camera " +:+ cameraId +:+ ": "
            +:+ error_message) st).

(** [data.message || 'Failed to control camera']. *)
Definition failure_message (message : option string) : string :=
  match message with
  | Some m => if truthy m then m else "Failed to control camera"
  | None => "Failed to control camera"
  end.

(** [handleControlAction(cameraId, action)] up to its first [await]: the
    request is sent. *)
Definition handleControlAction_request (cameraId action : string) (st : Page)
  : Page :=
  let endpoint :=
    if bool_decide (action = "start") then "/api/start-streams"
    else "/api/stop-streams" in
  fetch (control_request endpoint cameraId) st.

(** [handleControlAction(cameraId, action)] from the outcome of its awaits
    on. *)
Definition handleControlAction_resume
  (cameraId action : string) (outcome : FetchOutcome) (st : Page) : Page :=
  match outcome with
  | FetchRejected m => handleControlAction_catch cameraId action m st
  | JsonRejected _ m => handleControlAction_catch cameraId action m st
  | Replied false (NullBody type_error) =>
      handleControlAction_catch cameraId action type_error st
  | Replied false (ObjectBody message) =>
      handleControlAction_catch cameraId action (failure_message message) st
  | Replied true _ =>
      if bool_decide (action = "start") then
        initVideoStream cameraId (updateButtonStates cameraId true st)
      else
        destroyVideoStream cameraId (updateButtonStates cameraId false st)
  end.

(** [handleControlAction(cameraId, action)] when nothing else happens
    between the request and its outcome. *)
Definition handleControlAction
  (cameraId action : string) (outcome : FetchOutcome) (st : Page) : Page :=
  handleControlAction_resume cameraId action outcome
    (handleControlAction_request cameraId action st).

(** The request failed: a transport error, an unreadable body, or a
    response whose [ok] is false. *)
Definition control_failed (outcome : FetchOutcome) : bool :=
  match outcome with
  | FetchRejected _ => true
  | JsonRejected _ _ => true
  | Replied ok _ => negb ok
  end.

(** The markup of [renderCameraCard]: an indicator with the single class
    [status-indicator], an empty container, Start enabled, Stop disabled. *)
Definition fresh_card (cameraId : string) : Card :=
  {| card_camera := cameraId; indicator_class := ["status-indicator"];
     videos := []; start_disabled := false; stop_disabled := true |}.

(** [renderCameraCard(cameraId)]. *)
Definition renderCameraCard (cameraId : string) (st : Page) : Page :=
  set_grid (grid st ++ [fresh_card cameraId]) st.

(** [createCameraCard(cameraId)]. *)
Definition createCameraCard (cameraId : string) (st : Page) : Page :=
  if includes (cameras st) cameraId then st
  else renderCameraCard cameraId (set_cameras (cameras st ++ [cameraId]) st).

(** [renderCameraGrid()]. *)
Definition renderCameraGrid (st : Page) : Page :=
  foldl (fun s camId => createCameraCard camId s) (set_grid [] st) (cameras st).

(** The click listener of [#add-camera-btn]. *)
Definition addCameraClick (st : Page) : Page :=
  let cameraId := trim (new_camera_id st) in
  if truthy cameraId && negb (includes (cameras st) cameraId) then
    set_new_camera_id "" (createCameraCard cameraId st)
  else st.

Definition status_request : Request :=
  {| req_method := "GET"; req_url := "/api/status";
     req_content_type := None; req_body := None |}.

(** The continuation of [initialLoadCameras] on the outcome of its fetch; a
    rejection, or [Object.keys(undefined)] throwing, leaves the promise
    rejected and the page as it was. *)
Definition initialLoadCameras_then (outcome : PollOutcome) (st : Page) : Page :=
  match outcome with
  | PollReplied (Some active_streams) =>
      renderCameraGrid (set_cameras (object_keys active_streams) st)
  | _ => st
  end.

(** [`status-dot ${camStatus?.main ? 'healthy' : 'error'}`]. *)
Definition status_class (camStatus : option StreamInfo) : list string :=
  ["status-dot";
   if match camStatus with Some info => main info | None => false end
   then "healthy" else "error"].

(** The callback [updateStatusDisplay] gives to [this.cameras.forEach]. *)
Definition refresh_indicator (status : gmap string StreamInfo)
  (g : list Card) (camId : string) : list Card :=
  let camStatus := status !! camId in
  mutate (is_camera_indicator camId)
    (set_indicator_class (status_class camStatus)) g.

(** [updateStatusDisplay(status)]. *)
Definition updateStatusDisplay (status : gmap string StreamInfo) (st : Page)
  : Page :=
  let st := set_active_cam_count (List.length (object_keys status)) st in
  set_grid (foldl (refresh_indicator status) (grid st) (cameras st)) st.

(** The callback [startStatusPolling] gives to [setInterval], up to its
    first [await]. *)
Definition pollTick_request (st : Page) : Page := fetch status_request st.

(** The callback from the outcome of its awaits on.  On a page whose ids
    satisfy [selector_safe] no selector of [updateStatusDisplay] throws and
    the [catch] is entered on a failed fetch only; on other pages
    [querySelector] can throw inside [updateStatusDisplay], after the count
    was written, and the [catch] then shows the notification as well: that
    path is not described here, and what is proved of a replied tick has
    [page_safe] as a hypothesis. *)
Definition pollTick_resume (outcome : PollOutcome) (st : Page) : Page :=
  match outcome with
  | PollReplied (Some active_streams) => updateStatusDisplay active_streams st
  | _ => showNotification "Status update failed" "error" st
  end.

(** One run of the callback, when nothing else happens between the request
    and its outcome. *)
Definition pollTick (outcome : PollOutcome) (st : Page) : Page :=
  pollTick_resume outcome (pollTick_request st).

(** The tick failed: no snapshot came out of it. *)
Definition poll_failed (outcome : PollOutcome) : bool :=
  match outcome with
  | PollReplied (Some _) => false
  | _ => true
  end.

(** ** Events of the page *)

Inductive Button := StartBtn | StopBtn.

(** [data-action] of a control button. *)
Definition dataset_action (b : Button) : string :=
  match b with StartBtn => "start" | StopBtn => "stop" end.

Definition button_disabled (b : Button) (c : Card) : bool :=
  match b with StartBtn => start_disabled c | StopBtn => stop_disabled c end.

(** The document click listener on a control button of the [i]-th card, up
    to the first [await] of [handleControlAction]: the browser dispatches no
    click on a disabled button; otherwise the listener reads
    [dataset.camera] and [dataset.action] and the request is sent. *)
Definition controlClick_request (i : nat) (b : Button) (st : Page) : Page :=
  match grid st !! i with
  | Some card =>
      if button_disabled b card then st
      else handleControlAction_request (card_camera card) (dataset_action b) st
  | None => st
  end.

(** The same click when nothing else happens between the request and its
    outcome. *)
Definition controlClick (i : nat) (b : Button) (outcome : FetchOutcome)
  (st : Page) : Page :=
  match grid st !! i with
  | Some card =>
      if button_disabled b card then st
      else handleControlAction (card_camera card) (dataset_action b) outcome st
  | None => st
  end.

(** What can happen to the page.  A request and its outcome are separate
    events, so that other events may come in between; an outcome may settle a
    call for any camera and action, which covers every order in which the
    pending calls of the page can resume. *)
Inductive PageEvent :=
| Typed (value : string)
| AddCameraClicked
| ControlClicked (i : nat) (b : Button)
| ControlSettled (cameraId action : string) (outcome : FetchOutcome)
| PollTicked
| PollSettled (outcome : PollOutcome)
| InitialLoadSettled (outcome : PollOutcome)
| HlsErrored (player : nat) (data : ErrorData).

Definition step (st : Page) (ev : PageEvent) : Page :=
  match ev with
  | Typed value => set_new_camera_id value st
  | AddCameraClicked => addCameraClick st
  | ControlClicked i b => controlClick_request i b st
  | ControlSettled cameraId action outcome =>
      handleControlAction_resume cameraId action outcome st
  | PollTicked => pollTick_request st
  | PollSettled outcome => pollTick_resume outcome st
  | InitialLoadSettled outcome => initialLoadCameras_then outcome st
  | HlsErrored i data => set_players (alter (on_hls_error data) i (players st)) st
  end.

(** The page once the constructor has run: no camera, an empty grid, the
    fetch of [initialLoadCameras] in flight. *)
Definition initial_page (hls native : bool) : Page :=
  {| cameras := []; grid := []; new_camera_id := ""; active_cam_count := 0;
     notifications := []; alerts := []; requests := [status_request];
     players := []; hls_supported := hls; native_hls := native |}.

Definition run (hls native : bool) (events : list PageEvent) : Page :=
  foldl step (initial_page hls native) events.

(** The states the page can be in. *)
Definition reachable (st : Page) : Prop :=
  exists hls native events, st = run hls native events.

(** ** The session store of the specification

    The controller keeps no per-camera session record and has no transition
    function: what it knows of a session is the camera list, the card and
    the player log above.  The store below is the one the specification
    describes (its sections 3 and 4.1). *)

Module SessionStore.

(** Modelled from the spec: the [SessionState] enumeration. *)
Inductive SessionState :=
| Idle | Starting | Live | Recovering | Stopping | Stopped | Failed.

(** Modelled from the spec: the error kinds of the recovery policy. *)
Inductive ErrorKind := Network | Media | Fatal.

(** Modelled from the spec: the events [transition] accepts. *)
Inductive Event :=
| RequestStart
| RequestStop
| PlayerAttached
| PlayerError (kind : ErrorKind)
| RecoveryExhausted
| ServerReportsDown
| ServerReportsUp.

(** Modelled from the spec: the [SessionRecord] of the data model. *)
Record SessionRecord := {
  cameraId : string;
  state : SessionState;
  retryCount : nat;
  lastError : option ErrorKind;
  playerHandle : option nat
}.

(** Modelled from the spec: the error of a rejected transition. *)
Inductive Error :=
| InvalidTransition (cameraId : string) (state : SessionState) (event : Event).

(** Modelled from the spec: the session store, the records by camera id and
    the next handle the player adapter hands out. *)
Record Store := {
  records : gmap string SessionRecord;
  next_handle : nat
}.

(** Modelled from the spec: the state machine behind [transition], absent
    from the sources; the table of section 4.1 row by row, where [Failed]
    accepts a fresh [RequestStart], and [ServerReportsUp] is accepted in
    [Recovering] and [Failed] without a change of state (section 4.5).
    [None] marks an event that is not valid for the state. *)
Definition next_state (s : SessionState) (e : Event) : option SessionState :=
  match s, e with
  | Idle, RequestStart => Some Starting
  | Failed, RequestStart => Some Starting
  | Starting, PlayerAttached => Some Live
  | Starting, PlayerError Fatal => Some Failed
  | Live, PlayerError Network => Some Recovering
  | Live, PlayerError Media => Some Recovering
  | Live, ServerReportsDown => Some Recovering
  | Recovering, PlayerAttached => Some Live
  | Recovering, RecoveryExhausted => Some Failed
  | Recovering, ServerReportsUp => Some Recovering
  | Failed, ServerReportsUp => Some Failed
  | Idle, RequestStop => None
  | _, RequestStop => Some Stopped
  | _, _ => None
  end.

(** Modelled from the spec: a camera without a record is [Idle], its record
    being created by the first start request. *)
Definition idle_record (id : string) : SessionRecord :=
  {| cameraId := id; state := Idle; retryCount := 0; lastError := None;
     playerHandle := None |}.

(** Modelled from the spec: the record [transition] works on. *)
Definition record_of (id : string) (store : Store) : SessionRecord :=
  default (idle_record id) (records store !! id).

(** Modelled from the spec: the side effects of a valid transition on the
    record.  The handle is held exactly in [Starting], [Live] and
    [Recovering]; [retryCount] is reset on entering [Live] and counts the
    recoveries invoked since; a player error is remembered in [lastError]. *)
Definition apply_transition (fresh : nat) (r : SessionRecord) (e : Event)
  (s' : SessionState) : SessionRecord :=
  {| cameraId := cameraId r;
     state := s';
     retryCount :=
       match s' with
       | Live => 0
       | Recovering =>
           match state r with Live => S (retryCount r) | _ => retryCount r end
       | _ => retryCount r
       end;
     lastError :=
       match e with PlayerError k => Some k | _ => lastError r end;
     playerHandle :=
       match s' with
       | Starting => Some fresh
       | Live | Recovering => playerHandle r
       | _ => None
       end |}.

(** Modelled from the spec: [transition(cameraId, event)], absent from the
    sources; it returns the new record or an error, and the store
    afterwards. *)
Definition transition (id : string) (e : Event) (store : Store)
  : (SessionRecord + Error) * Store :=
  let r := record_of id store in
  match next_state (state r) e with
  | None => (inr (InvalidTransition id (state r) e), store)
  | Some s' =>
      let r' := apply_transition (next_handle store) r e s' in
      (inl r',
       {| records := <[id := r']> (records store);
          next_handle :=
            match s' with
            | Starting => S (next_handle store)
            | _ => next_handle store
            end |})
  end.

(** Modelled from the spec: the store after replaying the same event [n]
    times. *)
Fixpoint replay (n : nat) (id : string) (e : Event) (store : Store) : Store :=
  match n with
  | O => store
  | S n' => replay n' id e (snd (transition id e store))
  end.

End SessionStore.

(** ** Sample data *)

Definition media_fatal : ErrorData := {| fatal := true; type := MEDIA_ERROR |}.

(** The player [initVideoStream] creates for a camera. *)
Definition attached_player (cameraId : string) : Player :=
  {| hls_camera := cameraId;
     hls_calls := [LoadSource (hlsUrl cameraId); AttachMedia] |}.

(** A page with one rendered card, for the camera the operator typed. *)
Definition page_with (cameraId : string) : Page :=
  run true false [Typed cameraId; AddCameraClicked].

(** The players created for a camera that have not been destroyed. *)
Definition active_players (cameraId : string) (st : Page) : list Player :=
  filter (fun p => hls_camera p = cameraId ∧ destroyed p = false) (players st).

(** What a card holds of its session: the video elements and the state of
    the two buttons. *)
Definition card_session (c : Card) : string * list Video * bool * bool :=
  (card_camera c, videos c, start_disabled c, stop_disabled c).

(** The controls of a card agree: exactly one of the two buttons is
    disabled, and an indicator that is still found is marked [active]
    exactly when Start is disabled. *)
Definition card_ok (c : Card) : Prop :=
  stop_disabled c = negb (start_disabled c) ∧
  (has_indicator c = true →
   class_contains "active" (indicator_class c) = start_disabled c).

(** The invariant of the page: the camera list and the card ids have no
    duplicates, every card belongs to a listed camera, and the controls of
    every card agree. *)
Definition page_ok (st : Page) : Prop :=
  NoDup (cameras st) ∧
  NoDup (card_camera <$> grid st) ∧
  (card_camera <$> grid st) ⊆ cameras st ∧
  Forall card_ok (grid st).

(** The endpoint a control button posts to. *)
Definition control_endpoint (b : Button) : string :=
  match b with
  | StartBtn => "/api/start-streams"
  | StopBtn => "/api/stop-streams"
  end.

(** The text [handleControlAction] gives to [alert] on a failure. *)
Definition failure_alert (cameraId action error_message : string) : string :=
  "Failed to " +:+ action +:+ " camera " +:+ cameraId +:+ ": " +:+ error_message.

(** A page on which camera 2 has been started: its card shows Stop enabled
    and a player is attached. *)
Definition live_page : Page :=
  handleControlAction "2" "start" (Replied true (ObjectBody None)) (page_with "2").

(** A snapshot reporting camera 2 down. *)
Definition down_snapshot : gmap string StreamInfo :=
  {[ "2" := {| main := false |} ]}.

(** The card of camera 2 on [live_page]. *)
Definition live_card : Card :=
  {| card_camera := "2"; indicator_class := ["status-indicator"; "active"];
     videos := [new_video]; start_disabled := true; stop_disabled := false |}.

(** Modelled from the spec: a store in which camera 1 has been started and
    its player attached, so that its record is [Live]. *)
Definition live_store : SessionStore.Store :=
  snd (SessionStore.transition "1" SessionStore.PlayerAttached
         (snd (SessionStore.transition "1" SessionStore.RequestStart
                 {| SessionStore.records := ∅; SessionStore.next_handle := 0 |}))).

(** ** Further operations and notions *)

(** [updateCameraUI(cameraId, action)].  The card is not tested before
    [card.querySelector] is read: on a missing card the call throws a
    TypeError ([None]).  Only the Stop button is written. *)
Definition updateCameraUI (cameraId action : string) (st : Page) : option Page :=
  match query (is_camera cameraId) (grid st) with
  | None => None
  | Some _ =>
      if bool_decide (action = "start") then
        Some (initVideoStream cameraId
                (set_grid
                   (mutate (is_camera cameraId)
                      (fun card => set_buttons (start_disabled card) false card)
                      (grid st)) st))
      else
        Some (destroyVideoStream cameraId
                (set_grid
                   (mutate (is_camera cameraId)
                      (fun card => set_buttons (start_disabled card) true card)
                      (grid st)) st))
  end.

(** The errors on which the listener calls [hls.destroy()]: the fatal ones
    whose type is neither a network nor a media error. *)
Definition destroys (data : ErrorData) : bool :=
  fatal data &&
  match type data with
  | NETWORK_ERROR | MEDIA_ERROR => false
  | _ => true
  end.

(** An event that is not such an error delivered to a player. *)
Definition spares_players (ev : PageEvent) : bool :=
  match ev with
  | HlsErrored _ data => negb (destroys data)
  | _ => true
  end.

(** An event that is not a status response settling [initialLoadCameras],
    the one event on which [renderCameraGrid] empties the grid. *)
Definition keeps_grid (ev : PageEvent) : bool :=
  match ev with
  | InitialLoadSettled (PollReplied (Some _)) => false
  | _ => true
  end.

(** No video element of the page has its [hls] property set. *)
Definition videos_unlinked (st : Page) : Prop :=
  Forall (fun card => Forall (fun video => video_hls video = None) (videos card))
    (grid st).

(** The events of the page, run from a given state. *)
Definition run_from (st : Page) (events : list PageEvent) : Page :=
  foldl step st events.

(** The string is empty or begins with a character that [trim] keeps. *)
Definition starts_clean (s : string) : Prop :=
  match s with
  | EmptyString => True
  | String c _ => is_white_space c = false
  end.

(** The video element [initVideoStream] leaves in the container: with a
    [src] only on the native path. *)
Definition attached_video (cameraId : string) (st : Page) : Video :=
  if hls_supported st then new_video
  else if native_hls st then
    {| video_src := Some (hlsUrl cameraId); video_hls := None |}
  else new_video.

Definition other_button (b : Button) : Button :=
  match b with StartBtn => StopBtn | StopBtn => StartBtn end.

(** The state [updateButtonStates] is given after a successful action. *)
Definition started_by (b : Button) : bool :=
  match b with StartBtn => true | StopBtn => false end.

(** The [i]-th card of the grid carries the indicator classes [cls]. *)
Definition indicator_at (i : nat) (cls : list string) (st : Page) : Prop :=
  ∃ card, grid st !! i = Some card ∧ indicator_class card = cls.

(** ** Camera ids and selectors *)

(** A character that may follow [#camera-] in a CSS identifier and needs no
    escape in markup: an ASCII letter, a digit, [-] or [_]. *)
Definition is_name_char (c : ascii) : bool :=
  let n := nat_of_ascii c in
  ((48 <=? n)%nat && (n <=? 57)%nat) || ((65 <=? n)%nat && (n <=? 90)%nat)
  || ((97 <=? n)%nat && (n <=? 122)%nat) || (n =? 45)%nat || (n =? 95)%nat.

Fixpoint all_name_chars (s : string) : bool :=
  match s with
  | EmptyString => true
  | String c s' => is_name_char c && all_name_chars s'
  end.

(** The ids on which [`#camera-${id}`] is an id selector that selects cards
    only: name characters throughout, and not [grid], since [#camera-grid]
    is the grid container of the page. *)
Definition selector_safe (id : string) : bool :=
  all_name_chars id && negb (bool_decide (id = "grid")).

(** Every listed camera and every card of the page has such an id. *)
Definition page_safe (st : Page) : bool :=
  forallb selector_safe (cameras st)
  && forallb (fun card => selector_safe (card_camera card)) (grid st).

(** The event leaves the page with such ids only, and settles a call for
    such an id. *)
Definition safe_event (st : Page) (ev : PageEvent) : bool :=
  page_safe (step st ev)
  && match ev with
     | ControlSettled cameraId _ _ => selector_safe cameraId
     | _ => true
     end.

Fixpoint safe_run_from (st : Page) (events : list PageEvent) : bool :=
  match events with
  | [] => true
  | ev :: rest => safe_event st ev && safe_run_from (step st ev) rest
  end.

(** The states the page can be in when no id outside [selector_safe] was
    ever listed or given a card. *)
Definition safely_reachable (st : Page) : Prop :=
  exists hls native events,
    st = run hls native events
    ∧ safe_run_from (initial_page hls native) events = true.

(** The timer [startStatusPolling] registers with [setInterval]: the
    callback and the delay in milliseconds. *)
Record Interval := {
  interval_callback : PollOutcome → Page → Page;
  interval_delay : Z
}.

(** [startStatusPolling()]. *)
Definition startStatusPolling : Interval :=
  {| interval_callback := pollTick; interval_delay := 3000 |}.

(** The time, in milliseconds after the registration, at which the [k]-th
    run (counted from 0) of an interval's callback is due. *)
Definition interval_due (t : Interval) (k : nat) : Z :=
  (Z.of_nat k + 1) * interval_delay t.

(** * Properties *)

(** ** The error listener *)

Lemma on_hls_errors_cons errors data hls :
  on_hls_errors (data :: errors) hls = on_hls_errors errors (on_hls_error data hls).
Proof. reflexivity. Qed.

Lemma destroyed_hls_call c p :
  c ≠ Destroy → destroyed (hls_call c p) = destroyed p.
Proof.
  intros Hc. unfold destroyed, hls_call; simpl.
  apply bool_decide_ext. rewrite elem_of_app, list_elem_of_singleton.
  split; [intros [Hin|Heq]; [done | congruence] | by left].
Qed.

(** C1, the claim as stated fails: after two fatal media errors on a freshly
    attached player the listener has called [recoverMediaError] twice and the
    player has not been destroyed. *)
Lemma C1_second_media_error_recovers_again :
  let hls := on_hls_errors [media_fatal; media_fatal] (attached_player "1") in
  hls_calls hls =
    [LoadSource (hlsUrl "1"); AttachMedia; RecoverMediaError; RecoverMediaError]
  ∧ destroyed hls = false.
Proof. split; reflexivity. Qed.

(** C1, amended: on any sequence of media errors the listener calls
    [recoverMediaError] once for each fatal one, however many came before,
    and never destroys the player: there is no retry budget. *)
Theorem C1_media_errors_always_recover (errors : list ErrorData) (hls : Player) :
  Forall (fun data => type data = MEDIA_ERROR) errors →
  hls_calls (on_hls_errors errors hls) =
    hls_calls hls ++ repeat RecoverMediaError (List.length (filter (fun d => fatal d = true) errors))
  ∧ destroyed (on_hls_errors errors hls) = destroyed hls.
Proof.
  intros Hall. revert hls.
  induction Hall as [|data errors Hty _ IH]; intros hls.
  - simpl. by rewrite app_nil_r.
  - rewrite on_hls_errors_cons.
    destruct (IH (on_hls_error data hls)) as [Hcalls Hdes].
    rewrite Hcalls, Hdes. unfold on_hls_error. rewrite Hty.
    destruct (fatal data) eqn:Hf.
    + rewrite filter_cons_True by done. simpl.
      rewrite <- app_assoc. split; [done|].
      by apply destroyed_hls_call.
    + rewrite filter_cons_False by (rewrite Hf; done). done.
Qed.

Lemma C1_media_errors_always_recover_witness :
  hls_calls (on_hls_errors [media_fatal; media_fatal; media_fatal] (attached_player "1")) =
    hls_calls (attached_player "1") ++ repeat RecoverMediaError 3
  ∧ destroyed (on_hls_errors [media_fatal; media_fatal; media_fatal] (attached_player "1"))
    = destroyed (attached_player "1").
Proof.
  apply (C1_media_errors_always_recover
           [media_fatal; media_fatal; media_fatal] (attached_player "1")).
  repeat constructor.
Defined.

(** ** Selecting and mutating cards *)

Section Mutate.
Context (matches : Card → bool) (f : Card → Card).

Lemma mutate_fmap {A} (proj : Card → A) g :
  (∀ c, proj (f c) = proj c) → proj <$> mutate matches f g = proj <$> g.
Proof.
  intros Hproj. induction g as [|c g IH]; [done|].
  simpl mutate. destruct (matches c); rewrite !fmap_cons;
    [by rewrite Hproj | by rewrite IH].
Qed.

Lemma mutate_Forall (Q : Card → Prop) g :
  (∀ c, Q c → Q (f c)) → Forall Q g → Forall Q (mutate matches f g).
Proof.
  intros Hf. induction 1 as [|c g Hc Hg IH]; simpl; [constructor|].
  destruct (matches c); constructor; auto.
Qed.

Lemma mutate_id g :
  (∀ c, c ∈ g → matches c = true → f c = c) → mutate matches f g = g.
Proof.
  induction g as [|c g IH]; simpl; intros Hid; [done|].
  destruct (matches c) eqn:Hm.
  - rewrite Hid; [done | by left | done].
  - rewrite IH; [done|]. intros d Hd. apply Hid. by right.
Qed.

(** A card the selector does not match stays where it is. *)
Lemma mutate_lookup_other g i c :
  matches c = false → g !! i = Some c → mutate matches f g !! i = Some c.
Proof.
  revert i. induction g as [|d g IH]; intros i Hm Hi; [done|].
  simpl. destruct (matches d) eqn:Hd.
  - destruct i as [|i]; simpl in *; [|done].
    injection Hi as ->. congruence.
  - destruct i as [|i]; simpl in *; [done|]. by apply IH.
Qed.

(** The first matching card is the one mutated. *)
Lemma mutate_lookup_first g i c :
  g !! i = Some c → matches c = true →
  (∀ j d, j < i → g !! j = Some d → matches d = false) →
  mutate matches f g !! i = Some (f c).
Proof.
  revert i. induction g as [|d g IH]; intros i Hi Hm Hbefore; [done|].
  simpl. destruct i as [|i]; simpl in *.
  - injection Hi as ->. by rewrite Hm.
  - rewrite (Hbefore 0 d) by (first [lia | done]). simpl.
    apply IH; [done | done |].
    intros j e Hj He. apply (Hbefore (S j) e); [lia | done].
Qed.

Lemma query_Some_lookup g c :
  query matches g = Some c →
  ∃ i, g !! i = Some c ∧ matches c = true ∧
       ∀ j d, j < i → g !! j = Some d → matches d = false.
Proof.
  induction g as [|d g IH]; simpl; [done|].
  destruct (matches d) eqn:Hd.
  - intros [= ->]. exists 0. split; [done|]. split; [done|]. intros; lia.
  - intros Hq. destruct (IH Hq) as (i & Hi & Hm & Hbefore).
    exists (S i). split; [done|]. split; [done|].
    intros [|j] e Hj He; simpl in He; [congruence|].
    apply (Hbefore j e); [lia | done].
Qed.

Lemma query_mutate g :
  (∀ c, matches (f c) = matches c) →
  query matches (mutate matches f g) = f <$> query matches g.
Proof.
  intros Hm. induction g as [|c g IH]; simpl; [done|].
  destruct (matches c) eqn:Hc; simpl.
  - by rewrite Hm, Hc.
  - by rewrite Hc.
Qed.
End Mutate.

(** ** What each operation leaves alone *)

Ltac unfold_page :=
  unfold handleControlAction, handleControlAction_resume,
    handleControlAction_request, handleControlAction_catch, initVideoStream,
    destroyVideoStream, updateButtonStates, updateStatusDisplay, pollTick,
    pollTick_resume, pollTick_request,
    createCameraCard, renderCameraCard, addCameraClick, showNotification,
    alert, fetch, set_grid, set_cameras, set_players, set_new_camera_id,
    set_active_cam_count.

Ltac page_frame :=
  intros; repeat match goal with x := _ |- _ => subst x end;
  unfold_page; simpl; repeat (case_match; simpl); try reflexivity.

Lemma initVideoStream_frame id st :
  let st' := initVideoStream id st in
  cameras st' = cameras st ∧
  requests st' = requests st ∧ alerts st' = alerts st ∧
  notifications st' = notifications st ∧ new_camera_id st' = new_camera_id st ∧
  active_cam_count st' = active_cam_count st ∧
  hls_supported st' = hls_supported st ∧ native_hls st' = native_hls st.
Proof. by page_frame. Qed.

Lemma destroyVideoStream_frame id st :
  let st' := destroyVideoStream id st in
  cameras st' = cameras st ∧
  requests st' = requests st ∧ alerts st' = alerts st ∧
  notifications st' = notifications st ∧ new_camera_id st' = new_camera_id st ∧
  active_cam_count st' = active_cam_count st ∧
  hls_supported st' = hls_supported st ∧ native_hls st' = native_hls st.
Proof. by page_frame. Qed.

Lemma updateButtonStates_videos id b st :
  videos <$> grid (updateButtonStates id b st) = videos <$> grid st.
Proof.
  unfold updateButtonStates; simpl. apply mutate_fmap.
  intros c. unfold press. by case_match.
Qed.

(** ** Control requests *)

Lemma failure_message_truthy m : m ≠ "" → failure_message (Some m) = m.
Proof. destruct m; [done|]. reflexivity. Qed.

Lemma handleControlAction_requests cameraId (b : Button) outcome st :
  requests (handleControlAction cameraId (dataset_action b) outcome st) =
  requests st ++ [control_request (control_endpoint b) cameraId].
Proof.
  unfold handleControlAction, handleControlAction_resume,
    handleControlAction_request, handleControlAction_catch.
  destruct b; simpl;
    destruct outcome as [m|ok m|[|] [te|msg]]; simpl;
    rewrite ?(proj1 (proj2 (initVideoStream_frame _ _))),
            ?(proj1 (proj2 (destroyVideoStream_frame _ _)));
    reflexivity.
Qed.

Lemma handleControlAction_failed cameraId action outcome st :
  control_failed outcome = true →
  ∃ text,
    handleControlAction cameraId action outcome st =
    updateButtonStates cameraId (negb (bool_decide (action = "start")))
      (alert (failure_alert cameraId action text)
         (fetch (control_request
                   (if bool_decide (action = "start") then "/api/start-streams"
                    else "/api/stop-streams") cameraId) st))
    ∧ (∀ ok m, outcome = Replied ok (ObjectBody (Some m)) → m ≠ "" → text = m).
Proof.
  intros Hfail.
  unfold handleControlAction, handleControlAction_resume,
    handleControlAction_request, handleControlAction_catch, failure_alert.
  destruct outcome as [m|ok m|ok [te|msg]]; simpl in Hfail.
  - exists m. split; [done|]. intros; discriminate.
  - exists m. split; [done|]. intros; discriminate.
  - destruct ok; [done|]. exists te. split; [done|]. intros; discriminate.
  - destruct ok; [done|]. exists (failure_message msg). split; [done|].
    intros ok' m [= _ ->] Hm. by apply failure_message_truthy.
Qed.

(** C8: a start (stop) action posts to the start-streams (stop-streams)
    endpoint with the JSON body [{ cameras: [cameraId] }]; every response
    whose status is not 2xx is a failure: the operator is alerted, no stream
    is created or removed, and when the response carries a non-empty
    [message] the alert reports that message. *)
Theorem C8_control_request_and_failure
  (cameraId : string) (b : Button) (outcome : FetchOutcome) (st : Page) :
  let action := dataset_action b in
  let st' := handleControlAction cameraId action outcome st in
  requests st' =
    requests st ++
      [{| req_method := "POST"; req_url := control_endpoint b;
          req_content_type := Some "application/json";
          req_body := Some [cameraId] |}]
  ∧ (∀ data, outcome = Replied false data →
       ∃ text,
         alerts st' = alerts st ++ [failure_alert cameraId action text]
         ∧ players st' = players st
         ∧ videos <$> grid st' = videos <$> grid st
         ∧ (∀ m, data = ObjectBody (Some m) → m ≠ "" → text = m)).
Proof.
  intros action st'. split.
  - apply handleControlAction_requests.
  - intros data ->.
    destruct (handleControlAction_failed cameraId action (Replied false data) st)
      as (text & Heq & Hmsg); [done|].
    exists text. subst st'. rewrite Heq.
    split; [reflexivity|]. split; [reflexivity|].
    split; [by rewrite updateButtonStates_videos|].
    intros m -> Hm. by apply (Hmsg false m).
Qed.

Lemma C8_control_request_and_failure_witness :
  let st' := handleControlAction "0" "start"
               (Replied false (ObjectBody (Some "camera busy"))) (page_with "0") in
  requests st' =
    requests (page_with "0") ++
      [{| req_method := "POST"; req_url := "/api/start-streams";
          req_content_type := Some "application/json";
          req_body := Some ["0"] |}]
  ∧ alerts st' = ["Failed to start camera 0: camera busy"]
  ∧ players st' = [].
Proof.
  destruct (C8_control_request_and_failure "0" StartBtn
              (Replied false (ObjectBody (Some "camera busy"))) (page_with "0"))
    as [Hreq Hfail].
  destruct (Hfail (ObjectBody (Some "camera busy")) eq_refl)
    as (text & Halert & Hplayers & _ & Htext).
  rewrite (Htext "camera busy" eq_refl) in Halert by done.
  split; [exact Hreq|]. split; [exact Halert | exact Hplayers].
Defined.

(** ** The manifest URL *)





(** ** Reconciling with a status snapshot *)

Lemma mutate_lookup_inv matches f g i c' :
  mutate matches f g !! i = Some c' →
  ∃ c, g !! i = Some c ∧ (c' = c ∨ (matches c = true ∧ c' = f c)).
Proof.
  revert i. induction g as [|d g IH]; intros i; simpl; [done|].
  destruct (matches d) eqn:Hd; destruct i as [|i]; simpl.
  - intros [= <-]. exists d. auto.
  - intros Hi. exists c'. auto.
  - intros [= <-]. exists d. auto.
  - apply IH.
Qed.

Lemma is_camera_indicator_other cam camId c :
  cam ≠ camId → is_camera_indicator camId c = true →
  is_camera_indicator cam c = false.
Proof.
  unfold is_camera_indicator, is_camera. intros Hne Hm.
  apply andb_true_iff in Hm as [Hid _]. apply bool_decide_eq_true in Hid.
  rewrite bool_decide_eq_false_2; [done | congruence].
Qed.

Lemma is_camera_indicator_marked camId camStatus c :
  is_camera_indicator camId (set_indicator_class (status_class camStatus) c) = false.
Proof.
  unfold is_camera_indicator, has_indicator, status_class; simpl.
  apply andb_false_iff. right. by case_match.
Qed.

Lemma refresh_session status g l :
  card_session <$> foldl (refresh_indicator status) g l = card_session <$> g.
Proof.
  revert g. induction l as [|camId l IH]; intros g; simpl; [done|].
  rewrite IH. unfold refresh_indicator. by apply mutate_fmap.
Qed.

(** A card whose indicator has been overwritten is out of reach of every
    later pass. *)
Lemma refresh_marked status l g i c :
  g !! i = Some c → has_indicator c = false →
  foldl (refresh_indicator status) g l !! i = Some c.
Proof.
  revert g. induction l as [|camId l IH]; intros g Hi Hc; simpl; [done|].
  apply IH; [|done]. unfold refresh_indicator.
  apply mutate_lookup_other; [|done].
  unfold is_camera_indicator. rewrite Hc. apply andb_false_r.
Qed.

(** Passes for other cameras leave the first indicator of [cam] in place. *)
Lemma refresh_others status cam l g i c :
  cam ∉ l → g !! i = Some c → is_camera_indicator cam c = true →
  (∀ j d, j < i → g !! j = Some d → is_camera_indicator cam d = false) →
  let g' := foldl (refresh_indicator status) g l in
  g' !! i = Some c ∧
  (∀ j d, j < i → g' !! j = Some d → is_camera_indicator cam d = false).
Proof.
  revert g. induction l as [|camId l IH]; intros g Hnotin Hi Hc Hbefore; simpl.
  { done. }
  apply not_elem_of_cons in Hnotin as [Hne Hnotin].
  apply IH; [done | | done |].
  - unfold refresh_indicator. apply mutate_lookup_other; [|done].
    destruct (is_camera_indicator camId c) eqn:Hm; [|done].
    by rewrite (is_camera_indicator_other cam camId c Hne Hm) in Hc.
  - intros j d' Hj Hd'. unfold refresh_indicator in Hd'.
    apply mutate_lookup_inv in Hd' as (d & Hd & [-> | [Hm ->]]).
    + by apply (Hbefore j).
    + apply is_camera_indicator_marked.
Qed.

Lemma updateStatusDisplay_session status st :
  card_session <$> grid (updateStatusDisplay status st) = card_session <$> grid st.
Proof. unfold updateStatusDisplay; simpl. apply refresh_session. Qed.

Lemma updateStatusDisplay_indicator status st cam c :
  cam ∈ cameras st →
  query (is_camera_indicator cam) (grid st) = Some c →
  ∃ i, grid st !! i = Some c
     ∧ grid (updateStatusDisplay status st) !! i =
         Some (set_indicator_class (status_class (status !! cam)) c).
Proof.
  intros Hcam Hq.
  apply query_Some_lookup in Hq as (i & Hi & Hm & Hbefore).
  exists i. split; [done|].
  apply list_elem_of_split_l in Hcam as (l1 & l2 & Hl & Hnotin).
  unfold updateStatusDisplay; simpl. rewrite Hl, foldl_app. simpl.
  destruct (refresh_others status cam l1 (grid st) i c Hnotin Hi Hm Hbefore)
    as [Hi' Hbefore'].
  apply refresh_marked.
  - unfold refresh_indicator at 1. by apply mutate_lookup_first.
  - unfold has_indicator, status_class; simpl. by case_match.
Qed.

(** C5: for a listed camera with no entry in the snapshot,
    [updateStatusDisplay] sends no request (so no stop), calls nothing on any
    player, keeps the camera listed, and leaves the videos and buttons of
    every card as they were; on a page whose ids are selector-safe, all it
    does to the camera is to show its indicator, when found, as [error]. *)
Theorem C5_absent_camera_not_stopped
  (status : gmap string StreamInfo) (st : Page) (cam : string) :
  cam ∈ cameras st → status !! cam = None →
  let st' := updateStatusDisplay status st in
  requests st' = requests st ∧ players st' = players st
  ∧ cameras st' = cameras st ∧ alerts st' = alerts st
  ∧ card_session <$> grid st' = card_session <$> grid st
  ∧ (page_safe st = true →
     ∀ c, query (is_camera_indicator cam) (grid st) = Some c →
       ∃ i, grid st !! i = Some c
          ∧ grid st' !! i = Some (set_indicator_class ["status-dot"; "error"] c)).
Proof.
  intros Hcam Habsent st'. subst st'.
  repeat (split; [reflexivity|]). split.
  - apply updateStatusDisplay_session.
  - intros _ c Hq.
    destruct (updateStatusDisplay_indicator status st cam c Hcam Hq) as (i & Hi & Hi').
    exists i. split; [done|]. by rewrite Habsent in Hi'.
Qed.

Lemma C5_absent_camera_not_stopped_witness :
  let st' := updateStatusDisplay ∅ live_page in
  requests st' = requests live_page ∧ players st' = players live_page
  ∧ (card_session <$> grid st') = (card_session <$> grid live_page)
  ∧ ∃ i, grid live_page !! i = Some live_card
       ∧ grid st' !! i = Some (set_indicator_class ["status-dot"; "error"] live_card).
Proof.
  destruct (C5_absent_camera_not_stopped ∅ live_page "2")
    as (Hreq & Hplayers & _ & _ & Hsession & Hindicator).
  - vm_compute. by left.
  - apply lookup_empty.
  - split; [exact Hreq|]. split; [exact Hplayers|]. split; [exact Hsession|].
    exact (Hindicator eq_refl live_card eq_refl).
Defined.

(** C6, the claim as stated fails: camera 2 is started, a player is attached
    and the snapshot reports it down; after [updateStatusDisplay] the players
    are what they were, no [startLoad] has been called on any of them, no
    request has been sent, and the card still shows the camera started. *)
Lemma C6_down_flag_invokes_no_reload :
  let st' := updateStatusDisplay down_snapshot live_page in
  players st' = [attached_player "2"]
  ∧ (StartLoad ∉ hls_calls (attached_player "2"))
  ∧ requests st' = requests live_page
  ∧ (card_session <$> grid st') = [("2", [new_video], true, false)].
Proof.
  split; [reflexivity|]. split.
  - unfold attached_player; simpl. intros Hin.
    repeat (apply elem_of_cons in Hin as [Heq|Hin]; [discriminate Heq|]).
    by apply elem_of_nil in Hin.
  - split; [reflexivity|]. rewrite updateStatusDisplay_session. reflexivity.
Qed.

(** C6, amended: on a page whose ids are selector-safe, for a listed camera
    whose snapshot entry is down and whose indicator is found,
    [updateStatusDisplay] sets the indicator's class to [status-dot error];
    it sends no request, calls nothing on any player and leaves the videos
    and buttons of every card as they were. *)
Theorem C6_down_flag_marks_error
  (status : gmap string StreamInfo) (st : Page) (cam : string)
  (info : StreamInfo) (c : Card) :
  page_safe st = true →
  cam ∈ cameras st → status !! cam = Some info → main info = false →
  query (is_camera_indicator cam) (grid st) = Some c →
  let st' := updateStatusDisplay status st in
  (∃ i, grid st !! i = Some c
      ∧ grid st' !! i = Some (set_indicator_class ["status-dot"; "error"] c))
  ∧ players st' = players st ∧ requests st' = requests st
  ∧ card_session <$> grid st' = card_session <$> grid st.
Proof.
  intros _ Hcam Hinfo Hdown Hq st'. subst st'. split.
  - destruct (updateStatusDisplay_indicator status st cam c Hcam Hq) as (i & Hi & Hi').
    exists i. split; [done|]. rewrite Hinfo in Hi'.
    unfold status_class in Hi'. by rewrite Hdown in Hi'.
  - split; [reflexivity|]. split; [reflexivity|].
    apply updateStatusDisplay_session.
Qed.

Lemma C6_down_flag_marks_error_witness :
  (∃ i, grid live_page !! i = Some live_card
      ∧ grid (updateStatusDisplay down_snapshot live_page) !! i =
          Some (set_indicator_class ["status-dot"; "error"] live_card))
  ∧ players (updateStatusDisplay down_snapshot live_page) = players live_page.
Proof.
  destruct (C6_down_flag_marks_error down_snapshot live_page "2"
              {| main := false |} live_card)
    as (Hcard & Hplayers & _).
  - reflexivity.
  - vm_compute. by left.
  - apply lookup_singleton_eq.
  - reflexivity.
  - reflexivity.
  - split; [exact Hcard | exact Hplayers].
Defined.

(** ** The status poller *)

(** C7: [startStatusPolling] registers its callback with a delay of 3000 ms
    (3 seconds), so consecutive runs are due 3000 ms apart.  Every run sends
    exactly one request, [GET /api/status], and leaves the camera list, the
    players, and the videos and buttons of every card as they were.  A run
    whose fetch fails shows one notification and changes nothing else; a run
    that gets a snapshot hands it to [updateStatusDisplay] (on a page whose
    ids are selector-safe, where no selector throws). *)
Theorem C7_poll_tick (outcome : PollOutcome) (st : Page) :
  let st' := interval_callback startStatusPolling outcome st in
  (interval_delay startStatusPolling = 3 * 1000
   ∧ ∀ k, interval_due startStatusPolling (S k)
          - interval_due startStatusPolling k = 3 * 1000)%Z
  ∧ requests st' = requests st ++ [status_request]
  ∧ (cameras st' = cameras st ∧ players st' = players st
     ∧ alerts st' = alerts st
     ∧ card_session <$> grid st' = card_session <$> grid st)
  ∧ (poll_failed outcome = true →
       grid st' = grid st ∧ new_camera_id st' = new_camera_id st
       ∧ active_cam_count st' = active_cam_count st
       ∧ notifications st' =
           notifications st ++ [("Status update failed", "error")])
  ∧ (poll_failed outcome = false → page_safe st = true →
       ∃ snapshot, outcome = PollReplied (Some snapshot)
                 ∧ st' = updateStatusDisplay snapshot (fetch status_request st)).
Proof.
  intros st'. split.
  { split; [reflexivity|]. intros k. unfold interval_due. simpl. lia. }
  split.
  { subst st'. simpl. unfold pollTick, pollTick_resume, pollTick_request.
    destruct outcome as [|[snapshot|]]; reflexivity. }
  split.
  { subst st'. simpl. unfold pollTick, pollTick_resume, pollTick_request.
    destruct outcome as [|[snapshot|]]; try (repeat split; reflexivity).
    repeat (split; [reflexivity|]).
    exact (updateStatusDisplay_session snapshot (fetch status_request st)). }
  split.
  - destruct outcome as [|[snapshot|]]; simpl; try discriminate;
      intros _; repeat split; reflexivity.
  - destruct outcome as [|[snapshot|]]; simpl; try discriminate.
    intros _ _. by exists snapshot.
Qed.

Lemma C7_poll_tick_witness :
  let st := page_with "0" in
  let st' := pollTick PollRejected st in
  requests st' = requests st ++ [status_request]
  ∧ cameras st' = cameras st ∧ grid st' = grid st ∧ players st' = players st
  ∧ notifications st' = [("Status update failed", "error")]
  ∧ pollTick (PollReplied (Some down_snapshot)) st =
      updateStatusDisplay down_snapshot (fetch status_request st).
Proof.
  destruct (C7_poll_tick PollRejected (page_with "0"))
    as (_ & Hreq & (Hc & Hp & _) & Hfail & _).
  destruct (Hfail eq_refl) as (Hg & _ & _ & Hn).
  destruct (C7_poll_tick (PollReplied (Some down_snapshot)) (page_with "0"))
    as (_ & _ & _ & _ & Hok).
  destruct (Hok eq_refl eq_refl) as (snapshot & [= <-] & Hst).
  repeat split; assumption.
Defined.

(** ** Attaching a player *)

(** C2, the claim as stated fails: with a player already active for camera
    0, a second [initVideoStream] is not rejected; it changes the page and
    leaves two active players for the camera. *)
Lemma C2_second_attach_is_not_rejected :
  let st1 := initVideoStream "0" (page_with "0") in
  let st2 := initVideoStream "0" st1 in
  active_players "0" st1 = [attached_player "0"]
  ∧ st2 ≠ st1
  ∧ active_players "0" st2 = [attached_player "0"; attached_player "0"].
Proof.
  split; [reflexivity|]. split; [|reflexivity].
  intros Heq. apply (f_equal players) in Heq. discriminate Heq.
Qed.

(** C2, amended: [initVideoStream] keeps no record of an active handle and
    rejects nothing.  On a page whose ids are selector-safe, every call for a
    camera whose card is rendered, also when a player is already active for
    it, replaces the content of the card's video container by one newly
    created video element and, where Hls is supported, creates one more
    player, which loads the camera's manifest and is attached to that
    element; it sends no request and shows no alert. *)
Theorem C2_repeated_attach_replaces_video
  (cameraId : string) (st : Page) (card : Card) :
  page_safe st = true →
  query (is_camera cameraId) (grid st) = Some card →
  let st' := initVideoStream cameraId st in
  grid st' =
    mutate (is_camera cameraId) (set_videos [attached_video cameraId st]) (grid st)
  ∧ query (is_camera cameraId) (grid st') =
      Some (set_videos [attached_video cameraId st] card)
  ∧ (hls_supported st = true →
       List.length (players st') = S (List.length (players st))
       ∧ last (players st') = Some (attached_player cameraId))
  ∧ (hls_supported st = false → players st' = players st)
  ∧ cameras st' = cameras st ∧ requests st' = requests st
  ∧ alerts st' = alerts st.
Proof.
  intros _ Hcard st'. subst st'. unfold initVideoStream, attached_video.
  rewrite Hcard.
  destruct (hls_supported st); [|destruct (native_hls st)]; simpl;
    rewrite query_mutate, Hcard by done; simpl;
    repeat (split; [done|]); try done; (split; [|done]); try done.
  intros _. rewrite length_app, last_snoc. simpl. split; [lia | done].
Qed.

Lemma C2_repeated_attach_replaces_video_witness :
  let st1 := initVideoStream "0" (page_with "0") in
  let st2 := initVideoStream "0" st1 in
  query (is_camera "0") (grid st2) = Some (set_videos [new_video] (fresh_card "0"))
  ∧ List.length (players st2) = 2
  ∧ last (players st2) = Some (attached_player "0").
Proof.
  destruct (C2_repeated_attach_replaces_video "0"
              (initVideoStream "0" (page_with "0"))
              (set_videos [new_video] (fresh_card "0")) eq_refl eq_refl)
    as (_ & Hvideo & Hplayer & _).
  destruct (Hplayer eq_refl) as [Hlen Hlast].
  split; [exact Hvideo|]. split; [exact Hlen | exact Hlast].
Defined.

(** ** The invariant of the page *)

Lemma class_toggle_contains token force cls :
  class_contains token (class_toggle token force cls) = force.
Proof.
  unfold class_toggle, class_contains. destruct force.
  - destruct (bool_decide (token ∈ cls)) eqn:Hin; [done|].
    apply bool_decide_eq_true. apply elem_of_app. right. by left.
  - apply bool_decide_eq_false. rewrite list_elem_of_filter. tauto.
Qed.

Lemma class_toggle_same token force cls :
  class_contains token cls = force → class_toggle token force cls = cls.
Proof.
  unfold class_toggle, class_contains. intros <-.
  destruct (bool_decide (token ∈ cls)) eqn:Hin; [done|].
  apply bool_decide_eq_false in Hin.
  induction cls as [|t cls IH]; [done|].
  apply not_elem_of_cons in Hin as [Hne Hin].
  rewrite filter_cons_True by congruence. by rewrite IH.
Qed.

Lemma card_ok_fresh cameraId : card_ok (fresh_card cameraId).
Proof. split; reflexivity. Qed.

Lemma card_ok_status camStatus c :
  card_ok c → card_ok (set_indicator_class (status_class camStatus) c).
Proof.
  intros [Hbtn _]. split; [exact Hbtn|].
  unfold has_indicator, status_class; simpl. by case_match.
Qed.

Lemma card_ok_press isStarted c : card_ok (press isStarted c).
Proof.
  unfold press. simpl. destruct (has_indicator _) eqn:Hind.
  - split; [reflexivity|]. intros _. simpl. apply class_toggle_contains.
  - split; [reflexivity|]. intros Hind'. congruence.
Qed.


Lemma page_ok_ext st st' :
  cameras st' = cameras st → grid st' = grid st → page_ok st → page_ok st'.
Proof. unfold page_ok. by intros -> ->. Qed.

Lemma page_ok_mutate matches f st :
  (∀ c, card_camera (f c) = card_camera c) →
  (∀ c, card_ok c → card_ok (f c)) →
  page_ok st → page_ok (set_grid (mutate matches f (grid st)) st).
Proof.
  intros Hid Hok (Hcams & Hids & Hsub & Hcards). unfold page_ok; simpl.
  rewrite (mutate_fmap matches f card_camera) by done.
  repeat split; try done. by apply mutate_Forall.
Qed.

Lemma updateButtonStates_ok cameraId isStarted st :
  page_ok st → page_ok (updateButtonStates cameraId isStarted st).
Proof.
  intros Hok. apply (page_ok_mutate _ (press isStarted)); [| |done].
  - intros c. unfold press. by case_match.
  - intros c _. apply card_ok_press.
Qed.

Lemma initVideoStream_ok cameraId st :
  page_ok st → page_ok (initVideoStream cameraId st).
Proof.
  intros Hok. unfold initVideoStream.
  destruct (query _ _); [|done].
  destruct (hls_supported st); [|destruct (native_hls st)].
  - eapply page_ok_ext; [| |apply (page_ok_mutate (is_camera cameraId) (set_videos [new_video]) st); done];
      reflexivity.
  - by apply page_ok_mutate.
  - by apply page_ok_mutate.
Qed.

Lemma destroyVideoStream_ok cameraId st :
  page_ok st → page_ok (destroyVideoStream cameraId st).
Proof.
  intros Hok. unfold destroyVideoStream.
  destruct (query _ _) as [card|]; [|done].
  destruct (videos card) as [|video rest]; [done|].
  destruct (video_hls video).
  - eapply page_ok_ext; [| |apply (page_ok_mutate (is_camera cameraId) (set_videos rest) st); done];
      reflexivity.
  - by apply page_ok_mutate.
Qed.

Lemma handleControlAction_request_ok cameraId action st :
  page_ok st → page_ok (handleControlAction_request cameraId action st).
Proof. intros Hok. by apply (page_ok_ext st). Qed.

Lemma handleControlAction_resume_ok cameraId action outcome st :
  page_ok st → page_ok (handleControlAction_resume cameraId action outcome st).
Proof.
  intros Hok.
  assert (∀ m, page_ok (handleControlAction_catch cameraId action m st)) as Hcatch.
  { intros m. unfold handleControlAction_catch.
    apply updateButtonStates_ok. by apply (page_ok_ext st). }
  unfold handleControlAction_resume.
  destruct outcome as [m|ok m|[|] [te|msg]]; try apply Hcatch;
    case_bool_decide;
    first [ apply initVideoStream_ok | apply destroyVideoStream_ok ];
    by apply updateButtonStates_ok.
Qed.

Lemma refresh_ok status l g :
  Forall card_ok g → Forall card_ok (foldl (refresh_indicator status) g l).
Proof.
  revert g. induction l as [|camId l IH]; intros g Hg; simpl; [done|].
  apply IH. unfold refresh_indicator. apply mutate_Forall; [|done].
  intros c. apply card_ok_status.
Qed.

Lemma refresh_ids status l g :
  card_camera <$> foldl (refresh_indicator status) g l = card_camera <$> g.
Proof.
  revert g. induction l as [|camId l IH]; intros g; simpl; [done|].
  rewrite IH. unfold refresh_indicator. by apply mutate_fmap.
Qed.

Lemma updateStatusDisplay_ok status st :
  page_ok st → page_ok (updateStatusDisplay status st).
Proof.
  intros (Hcams & Hids & Hsub & Hcards). unfold page_ok, updateStatusDisplay; simpl.
  rewrite refresh_ids. repeat split; try done. by apply refresh_ok.
Qed.

Lemma createCameraCard_ok cameraId st :
  page_ok st → page_ok (createCameraCard cameraId st).
Proof.
  intros (Hcams & Hids & Hsub & Hcards). unfold createCameraCard, includes.
  case_bool_decide as Hin; [done|].
  unfold page_ok; simpl. rewrite fmap_app; simpl.
  split; [|split; [|split]].
  - apply NoDup_app. split; [done|]. split; [|apply NoDup_singleton].
    intros x Hx ->%list_elem_of_singleton. done.
  - apply NoDup_app. split; [done|]. split; [|apply NoDup_singleton].
    intros x Hx ->%list_elem_of_singleton. apply Hin, Hsub, Hx.
  - intros x [Hx | ->%list_elem_of_singleton]%elem_of_app; apply elem_of_app;
      [left; by apply Hsub | right; by left].
  - apply Forall_app. split; [done|]. constructor; [apply card_ok_fresh | constructor].
Qed.

Lemma renderCameraGrid_ok st :
  NoDup (cameras st) → page_ok (renderCameraGrid st).
Proof.
  intros Hcams. unfold renderCameraGrid.
  assert (page_ok (set_grid [] st)) as Hstart.
  { unfold page_ok; simpl. repeat split; try done; [constructor | apply list_subseteq_nil]. }
  generalize (cameras st) as l. revert Hstart. generalize (set_grid [] st) as s.
  intros s Hs l. revert s Hs.
  induction l as [|camId l IH]; intros s Hs; simpl; [done|].
  by apply IH, createCameraCard_ok.
Qed.

Lemma object_keys_NoDup (o : gmap string StreamInfo) : NoDup (object_keys o).
Proof. apply NoDup_fst_map_to_list. Qed.

Lemma step_ok st ev : page_ok st → page_ok (step st ev).
Proof.
  intros Hok.
  destruct ev as [value| |i b|cameraId action outcome| |outcome|outcome|i data];
    simpl.
  - by apply (page_ok_ext st).
  - unfold addCameraClick. case_match; [|done].
    eapply page_ok_ext; [| |apply (createCameraCard_ok (trim (new_camera_id st)) st Hok)];
      reflexivity.
  - unfold controlClick_request. destruct (grid st !! i) as [card|]; [|done].
    destruct (button_disabled b card); [done|].
    by apply handleControlAction_request_ok.
  - by apply handleControlAction_resume_ok.
  - by apply (page_ok_ext st).
  - unfold pollTick_resume. destruct outcome as [|[snapshot|]].
    + by apply (page_ok_ext st).
    + by apply updateStatusDisplay_ok.
    + by apply (page_ok_ext st).
  - unfold initialLoadCameras_then. destruct outcome as [|[snapshot|]]; [done| |done].
    apply renderCameraGrid_ok. simpl. apply object_keys_NoDup.
  - by apply (page_ok_ext st).
Qed.

Lemma run_snoc hls native events ev :
  run hls native (events ++ [ev]) = step (run hls native events) ev.
Proof. unfold run. by rewrite foldl_snoc. Qed.

Lemma reachable_ok st : reachable st → page_ok st.
Proof.
  intros (hls & native & events & ->).
  induction events as [|ev events IH] using rev_ind.
  - unfold page_ok; simpl. repeat split; try constructor. apply list_subseteq_nil.
  - rewrite run_snoc. by apply step_ok.
Qed.

Lemma safe_run_from_snoc st events ev :
  safe_run_from st (events ++ [ev]) =
  safe_run_from st events && safe_event (run_from st events) ev.
Proof.
  revert st. induction events as [|e events IH]; intros st; simpl.
  - by rewrite andb_true_r.
  - rewrite IH. by rewrite andb_assoc.
Qed.

Lemma safely_reachable_reachable st : safely_reachable st → reachable st.
Proof. intros (hls & native & events & -> & _). by exists hls, native, events. Qed.

Lemma safely_reachable_safe st : safely_reachable st → page_safe st = true.
Proof.
  intros (hls & native & events & -> & Hsafe).
  destruct events as [|ev events _] using rev_ind; [reflexivity|].
  rewrite safe_run_from_snoc in Hsafe.
  apply andb_true_iff in Hsafe as [_ Hev]. unfold safe_event in Hev.
  apply andb_true_iff in Hev as [Hpage _].
  rewrite run_snoc. exact Hpage.
Qed.

Lemma safely_reachable_ok st : safely_reachable st → page_ok st.
Proof. intros Hst. by apply reachable_ok, safely_reachable_reachable. Qed.

(** ** Failed control requests *)


(** ** The camera list *)

Lemma trim_empty_falsy value : trim value = "" → truthy (trim value) = false.
Proof. by intros ->. Qed.

(** C10: on every reachable page the camera list has no duplicates, whether
    its entries were typed by the operator or taken from a status response;
    [createCameraCard] on a listed id changes nothing, and so does a click on
    the add button when the typed id, once trimmed, is empty or already
    listed. *)
Theorem C10_camera_list_has_no_duplicates (st : Page) :
  (reachable st → NoDup (cameras st))
  ∧ (∀ cameraId, cameraId ∈ cameras st → createCameraCard cameraId st = st)
  ∧ (∀ value, trim value = "" ∨ trim value ∈ cameras st →
       addCameraClick (set_new_camera_id value st) = set_new_camera_id value st).
Proof.
  split; [|split].
  - intros Hreach. by destruct (reachable_ok st Hreach) as (Hcams & _).
  - intros cameraId Hin. unfold createCameraCard, includes.
    by rewrite bool_decide_eq_true_2.
  - intros value Hvalue. unfold addCameraClick; simpl.
    destruct Hvalue as [Hempty | Hin].
    + by rewrite (trim_empty_falsy value Hempty).
    + unfold includes. rewrite (bool_decide_eq_true_2 _ Hin). simpl.
      by rewrite andb_false_r.
Qed.

Lemma C10_camera_list_has_no_duplicates_witness :
  NoDup (cameras (run true false
                    [Typed "0"; AddCameraClicked; Typed " 0 "; AddCameraClicked;
                     Typed "1"; AddCameraClicked]))
  ∧ createCameraCard "0" (page_with "0") = page_with "0"
  ∧ addCameraClick (set_new_camera_id "   " (page_with "0")) =
      set_new_camera_id "   " (page_with "0")
  ∧ addCameraClick (set_new_camera_id " 0 " (page_with "0")) =
      set_new_camera_id " 0 " (page_with "0").
Proof.
  split; [|split; [|split]].
  - apply (C10_camera_list_has_no_duplicates
             (run true false
                [Typed "0"; AddCameraClicked; Typed " 0 "; AddCameraClicked;
                 Typed "1"; AddCameraClicked])).
    by eexists _, _, _.
  - apply (C10_camera_list_has_no_duplicates (page_with "0")).
    vm_compute. by left.
  - apply (C10_camera_list_has_no_duplicates (page_with "0")). by left.
  - apply (C10_camera_list_has_no_duplicates (page_with "0")).
    right. vm_compute. by left.
Defined.

(** ** The transition function of the specification *)

Lemma transition_invalid id e store :
  SessionStore.next_state (SessionStore.state (SessionStore.record_of id store)) e = None →
  SessionStore.transition id e store =
    (inr (SessionStore.InvalidTransition id
            (SessionStore.state (SessionStore.record_of id store)) e), store).
Proof. intros Hinvalid. unfold SessionStore.transition. by rewrite Hinvalid. Qed.

Lemma replay_invalid n id e store :
  SessionStore.next_state (SessionStore.state (SessionStore.record_of id store)) e = None →
  SessionStore.replay n id e store = store.
Proof.
  intros Hinvalid. induction n as [|n IH]; simpl; [done|].
  by rewrite (transition_invalid id e store Hinvalid).
Qed.

(** C3: an event that is not valid for the state of the camera's record
    makes [transition] return [InvalidTransition] and the store it was
    given; replaying the event any number of times gives that same store, so
    the record's [state], [retryCount] and [playerHandle] are what they
    were. *)
Theorem C3_invalid_event_changes_nothing
  (id : string) (e : SessionStore.Event) (store : SessionStore.Store) :
  SessionStore.next_state (SessionStore.state (SessionStore.record_of id store)) e = None →
  SessionStore.transition id e store =
    (inr (SessionStore.InvalidTransition id
            (SessionStore.state (SessionStore.record_of id store)) e), store)
  ∧ ∀ n,
      let store' := SessionStore.replay n id e store in
      store' = store
      ∧ SessionStore.records store' !! id = SessionStore.records store !! id
      ∧ SessionStore.state (SessionStore.record_of id store') =
          SessionStore.state (SessionStore.record_of id store)
      ∧ SessionStore.retryCount (SessionStore.record_of id store') =
          SessionStore.retryCount (SessionStore.record_of id store)
      ∧ SessionStore.playerHandle (SessionStore.record_of id store') =
          SessionStore.playerHandle (SessionStore.record_of id store).
Proof.
  intros Hinvalid. split; [by apply transition_invalid|].
  intros n store'. subst store'.
  rewrite (replay_invalid n id e store Hinvalid). repeat split.
Qed.

Lemma C3_invalid_event_changes_nothing_witness :
  SessionStore.state (SessionStore.record_of "1" live_store) = SessionStore.Live
  ∧ SessionStore.transition "1" SessionStore.RequestStart live_store =
      (inr (SessionStore.InvalidTransition "1" SessionStore.Live
              SessionStore.RequestStart), live_store)
  ∧ SessionStore.replay 3 "1" SessionStore.RequestStart live_store = live_store.
Proof.
  assert (SessionStore.state (SessionStore.record_of "1" live_store)
          = SessionStore.Live) as Hlive by (vm_compute; reflexivity).
  destruct (C3_invalid_event_changes_nothing "1" SessionStore.RequestStart live_store)
    as [Herror Hreplay].
  - rewrite Hlive. reflexivity.
  - split; [exact Hlive|]. split.
    + rewrite Hlive in Herror. exact Herror.
    + exact (proj1 (Hreplay 3)).
Defined.

(** * Further properties of the controller *)

(** ** The error listener on arbitrary errors *)

Lemma destroyed_destroy p : destroyed (hls_call Destroy p) = true.
Proof.
  unfold destroyed, hls_call; simpl. apply bool_decide_eq_true.
  apply elem_of_app. right. by left.
Qed.

Lemma on_hls_error_destroyed data hls :
  destroyed (on_hls_error data hls) = destroyed hls || destroys data.
Proof.
  unfold on_hls_error, destroys.
  destruct (fatal data); simpl; [|by rewrite orb_false_r].
  destruct (type data);
    rewrite ?destroyed_destroy, ?orb_true_r, ?orb_false_r; try done;
    by apply destroyed_hls_call.
Qed.

Lemma on_hls_error_calls data hls :
  List.length (hls_calls (on_hls_error data hls)) =
  List.length (hls_calls hls) + (if fatal data then 1 else 0).
Proof.
  unfold on_hls_error. destruct (fatal data); [|simpl; lia].
  destruct (type data); simpl; rewrite length_app; simpl; lia.
Qed.

(** X1: whatever errors arrive, the listener makes exactly one call on the
    player for each fatal error and none for the others, and the player
    ends up destroyed exactly when it already was or one of the errors was
    fatal with a type other than network or media. *)
Theorem X1_listener_calls_and_destroy (errors : list ErrorData) (hls : Player) :
  destroyed (on_hls_errors errors hls) = destroyed hls || existsb destroys errors
  ∧ List.length (hls_calls (on_hls_errors errors hls)) =
      List.length (hls_calls hls)
      + List.length (filter (fun d => fatal d = true) errors).
Proof.
  revert hls. induction errors as [|data errors IH]; intros hls.
  - simpl. rewrite orb_false_r. split; [done | lia].
  - rewrite on_hls_errors_cons. destruct (IH (on_hls_error data hls)) as [Hd Hc].
    rewrite Hd, Hc, on_hls_error_destroyed, on_hls_error_calls. simpl.
    split; [by rewrite orb_assoc|].
    destruct (fatal data) eqn:Hf.
    + rewrite filter_cons_True by done. simpl. lia.
    + rewrite filter_cons_False by (rewrite Hf; done). lia.
Qed.

(** ** Loading the cameras the server knows *)

Lemma createCameraCard_listed cameraId st :
  cameraId ∈ cameras st → createCameraCard cameraId st = st.
Proof.
  intros Hin. unfold createCameraCard, includes. by rewrite bool_decide_eq_true_2.
Qed.

Lemma createCameraCard_all_listed l st :
  (∀ camId, camId ∈ l → camId ∈ cameras st) →
  foldl (fun s camId => createCameraCard camId s) st l = st.
Proof.
  induction l as [|camId l IH]; intros Hl; simpl; [done|].
  rewrite createCameraCard_listed by (apply Hl; by left).
  apply IH. intros x Hx. apply Hl. by right.
Qed.

Lemma renderCameraGrid_empties st : renderCameraGrid st = set_grid [] st.
Proof. unfold renderCameraGrid. by apply createCameraCard_all_listed. Qed.

Lemma elem_of_object_keys (o : gmap string StreamInfo) id :
  id ∈ object_keys o ↔ is_Some (o !! id).
Proof.
  unfold object_keys. rewrite list_elem_of_fmap. split.
  - intros ([k v] & -> & Hkv). apply elem_of_map_to_list in Hkv. by exists v.
  - intros [v Hv]. exists (id, v). split; [done|]. by apply elem_of_map_to_list.
Qed.

(** X2: when the status response of [initialLoadCameras] arrives, the camera
    list becomes the keys of [active_streams] and the grid is emptied, and
    [renderCameraGrid] renders no card at all, since [createCameraCard]
    finds every id already listed; players and logs are as before. *)
Theorem X2_initial_load_renders_no_card
  (active_streams : gmap string StreamInfo) (st : Page) :
  let st' := initialLoadCameras_then (PollReplied (Some active_streams)) st in
  grid st' = []
  ∧ (∀ id, id ∈ cameras st' ↔ is_Some (active_streams !! id))
  ∧ NoDup (cameras st')
  ∧ players st' = players st ∧ requests st' = requests st
  ∧ alerts st' = alerts st.
Proof.
  intros st'. subst st'. unfold initialLoadCameras_then.
  rewrite renderCameraGrid_empties. simpl.
  split; [done|]. split; [apply elem_of_object_keys|].
  split; [apply NoDup_fst_map_to_list | done].
Qed.

(** X3: a camera the server reported can then not be given a card by the
    operator either: the add listener finds its id listed and does nothing,
    so no card of that camera exists. *)
Theorem X3_discovered_camera_gets_no_card
  (active_streams : gmap string StreamInfo) (st : Page) (value : string) :
  is_Some (active_streams !! trim value) →
  let st' := initialLoadCameras_then (PollReplied (Some active_streams)) st in
  let st'' := addCameraClick (set_new_camera_id value st') in
  st'' = set_new_camera_id value st'
  ∧ query (is_camera (trim value)) (grid st'') = None.
Proof.
  intros Hknown st' st''.
  assert (trim value ∈ cameras st') as Hin.
  { subst st'. unfold initialLoadCameras_then.
    rewrite renderCameraGrid_empties. simpl. by apply elem_of_object_keys. }
  assert (st'' = set_new_camera_id value st') as Heq.
  { subst st''. unfold addCameraClick, includes; simpl.
    rewrite (bool_decide_eq_true_2 _ Hin). simpl. by rewrite andb_false_r. }
  split; [done|]. rewrite Heq. subst st'. unfold initialLoadCameras_then.
  by rewrite renderCameraGrid_empties.
Qed.

Lemma X3_discovered_camera_gets_no_card_witness :
  let st' := initialLoadCameras_then (PollReplied (Some down_snapshot)) live_page in
  addCameraClick (set_new_camera_id " 2 " st') = set_new_camera_id " 2 " st'
  ∧ query (is_camera "2") (grid (addCameraClick (set_new_camera_id " 2 " st'))) = None.
Proof.
  apply (X3_discovered_camera_gets_no_card down_snapshot live_page " 2 ").
  exists {| main := false |}. apply lookup_singleton_eq.
Defined.

(** ** The cards of a reachable page *)

(** X4: on every page reached with selector-safe ids the cards have
    pairwise distinct camera ids, every card belongs to a listed camera, and
    on every card exactly one of Start and Stop is disabled. *)
Theorem X4_reachable_cards_consistent (st : Page) :
  safely_reachable st →
  NoDup (card_camera <$> grid st)
  ∧ (∀ card, card ∈ grid st → card_camera card ∈ cameras st)
  ∧ (∀ card, card ∈ grid st → stop_disabled card = negb (start_disabled card)).
Proof.
  intros Hreach. destruct (safely_reachable_ok st Hreach) as (_ & Hids & Hsub & Hcards).
  split; [done|]. split.
  - intros card Hcard. apply Hsub. by apply list_elem_of_fmap_2.
  - intros card Hcard. rewrite Forall_forall in Hcards.
    by destruct (Hcards card Hcard).
Qed.

Lemma X4_reachable_cards_consistent_witness :
  NoDup (card_camera <$> grid live_page)
  ∧ (∀ card, card ∈ grid live_page → card_camera card ∈ cameras live_page)
  ∧ (∀ card, card ∈ grid live_page → stop_disabled card = negb (start_disabled card)).
Proof.
  apply (X4_reachable_cards_consistent live_page).
  exists true, false,
    [Typed "2"; AddCameraClicked; ControlClicked 0 StartBtn;
     ControlSettled "2" "start" (Replied true (ObjectBody None))].
  split; reflexivity.
Defined.

(** ** Adding a camera *)

Lemma trimStart_clean s : starts_clean (trimStart s).
Proof.
  induction s as [|c s IH]; simpl; [done|].
  destruct (is_white_space c) eqn:Hc; [done|]. simpl. done.
Qed.

Lemma trimStart_of_clean s : starts_clean s → trimStart s = s.
Proof. destruct s as [|c s]; simpl; [done|]. by intros ->. Qed.

Lemma trimEnd_clean s : starts_clean s → starts_clean (trimEnd s).
Proof.
  destruct s as [|c s]; simpl; [done|]. intros Hc.
  destruct (trimEnd s); [by rewrite Hc | done].
Qed.

Lemma trimEnd_idem s : trimEnd (trimEnd s) = trimEnd s.
Proof.
  induction s as [|c s IH]; simpl; [done|].
  destruct (trimEnd s) as [|a t] eqn:Ht.
  - destruct (is_white_space c) eqn:Hc; simpl; [done|]. by rewrite Hc.
  - change (trimEnd (String c (String a t))) with
      (match trimEnd (String a t) with
       | EmptyString =>
           if is_white_space c then EmptyString else String c EmptyString
       | t' => String c t'
       end).
    by rewrite IH.
Qed.

Lemma trim_idem s : trim (trim s) = trim s.
Proof.
  unfold trim.
  rewrite (trimStart_of_clean (trimEnd (trimStart s)))
    by apply trimEnd_clean, trimStart_clean.
  apply trimEnd_idem.
Qed.

Lemma query_app_None matches g l :
  query matches g = None → query matches (g ++ l) = query matches l.
Proof.
  induction g as [|c g IH]; simpl; [done|].
  destruct (matches c); [done | exact IH].
Qed.

Lemma query_unlisted cameraId st :
  page_ok st → cameraId ∉ cameras st → query (is_camera cameraId) (grid st) = None.
Proof.
  intros (_ & _ & Hsub & _) Hnotin.
  assert (∀ c, c ∈ grid st → is_camera cameraId c = false) as Hno.
  { intros c Hc. apply bool_decide_eq_false. intros Heq. apply Hnotin.
    rewrite <- Heq. apply Hsub. by apply list_elem_of_fmap_2. }
  clear Hsub. induction (grid st) as [|c g IH]; simpl; [done|].
  rewrite Hno by (by left). apply IH. intros d Hd. apply Hno. by right.
Qed.

(** X5: on every page reached with selector-safe ids, a click on the add
    button with a typed value whose trimmed form is a selector-safe id,
    non-empty and not yet listed, appends that trimmed id to the camera list
    and a card to the grid; the selectors find that card, a fresh one (Start
    enabled, Stop disabled, no video), the input is cleared, and the stored
    id is its own trimmed form. *)
Theorem X5_add_renders_fresh_card (st : Page) (value : string) :
  safely_reachable st → selector_safe (trim value) = true →
  trim value ≠ "" → trim value ∉ cameras st →
  let st' := addCameraClick (set_new_camera_id value st) in
  cameras st' = cameras st ++ [trim value]
  ∧ grid st' = grid st ++ [fresh_card (trim value)]
  ∧ query (is_camera (trim value)) (grid st') = Some (fresh_card (trim value))
  ∧ new_camera_id st' = ""
  ∧ trim (trim value) = trim value.
Proof.
  intros Hreach _ Hne Hnotin st'.
  assert (st' = set_new_camera_id ""
                  (renderCameraCard (trim value)
                     (set_cameras (cameras st ++ [trim value])
                        (set_new_camera_id value st)))) as ->.
  { subst st'. unfold addCameraClick, createCameraCard, includes; simpl.
    rewrite (bool_decide_eq_false_2 _ Hnotin).
    destruct (trim value); [done|]. reflexivity. }
  simpl. repeat (split; [reflexivity|]). split; [|split; [reflexivity | apply trim_idem]].
  rewrite query_app_None
    by (apply query_unlisted; [by apply safely_reachable_ok | done]).
  simpl. unfold is_camera; simpl. by rewrite bool_decide_eq_true_2.
Qed.

Lemma X5_add_renders_fresh_card_witness :
  let st' := addCameraClick (set_new_camera_id "  7 " live_page) in
  cameras st' = ["2"; "7"]
  ∧ query (is_camera "7") (grid st') = Some (fresh_card "7").
Proof.
  destruct (X5_add_renders_fresh_card live_page "  7 ")
    as (Hcams & _ & Hquery & _).
  - exists true, false,
      [Typed "2"; AddCameraClicked; ControlClicked 0 StartBtn;
       ControlSettled "2" "start" (Replied true (ObjectBody None))].
    split; reflexivity.
  - reflexivity.
  - discriminate.
  - vm_compute. intros Hin. apply elem_of_cons in Hin as [Heq|Hin];
      [discriminate Heq | by apply elem_of_nil in Hin].
  - split; [exact Hcams | exact Hquery].
Defined.

(** ** Control actions on the card that was clicked *)

Lemma mutate_lookup_nodup f g i c :
  NoDup (card_camera <$> g) → g !! i = Some c →
  mutate (is_camera (card_camera c)) f g !! i = Some (f c).
Proof.
  intros Hnd Hi. apply mutate_lookup_first; [done | by apply bool_decide_eq_true_2 |].
  intros j d Hj Hd. apply bool_decide_eq_false. intros Heq.
  assert (j = i) as ->; [|lia].
  apply (NoDup_lookup (card_camera <$> g) j i (card_camera c)); [done | |].
  - rewrite list_lookup_fmap, Hd. simpl. by rewrite Heq.
  - by rewrite list_lookup_fmap, Hi.
Qed.

Lemma query_nodup g i c :
  NoDup (card_camera <$> g) → g !! i = Some c →
  query (is_camera (card_camera c)) g = Some c.
Proof.
  revert i. induction g as [|d g IH]; intros i Hnd Hi; [done|].
  rewrite fmap_cons in Hnd. apply NoDup_cons in Hnd as [Hd Hnd].
  simpl. unfold is_camera at 1. case_bool_decide as Heq.
  - destruct i as [|i]; simpl in Hi; [congruence|].
    exfalso. apply Hd. rewrite Heq. apply list_elem_of_fmap_2.
    by apply list_elem_of_lookup_2 with i.
  - destruct i as [|i]; simpl in Hi; [congruence|]. by apply (IH i).
Qed.

Lemma mutate_first_fixed matches f g c :
  query matches g = Some c → f c = c → mutate matches f g = g.
Proof.
  induction g as [|d g IH]; simpl; [done|].
  destruct (matches d); [by intros [= ->] -> | intros Hq Hf; by rewrite IH].
Qed.

Lemma press_camera b c : card_camera (press b c) = card_camera c.
Proof. unfold press. by case_match. Qed.

Lemma press_videos b c : videos (press b c) = videos c.
Proof. unfold press. by case_match. Qed.

Lemma press_buttons b c :
  start_disabled (press b c) = b ∧ stop_disabled (press b c) = negb b.
Proof. unfold press. by case_match. Qed.

Lemma press_set_videos b vs c : press b (set_videos vs c) = set_videos vs (press b c).
Proof.
  unfold press, has_indicator; simpl.
  by destruct (class_contains "status-indicator" (indicator_class c)).
Qed.

Lemma class_toggle_other_kept cls :
  class_contains "status-indicator" cls = true →
  class_contains "status-indicator" (class_toggle "active" true cls) = true.
Proof.
  unfold class_toggle, class_contains. intros Hin.
  destruct (bool_decide ("active" ∈ cls)); [done|].
  apply bool_decide_eq_true in Hin. apply bool_decide_eq_true.
  apply elem_of_app. by left.
Qed.

Lemma class_toggle_undo cls :
  class_contains "active" cls = false →
  class_toggle "active" false (class_toggle "active" true cls) = cls.
Proof.
  intros Hno.
  assert (class_toggle "active" true cls = cls ++ ["active"]) as ->.
  { unfold class_toggle. by rewrite Hno. }
  pose proof (class_toggle_same "active" false cls Hno) as Hsame.
  unfold class_toggle in *. rewrite filter_app, Hsame.
  rewrite filter_cons_False by (intros Hne; by apply Hne).
  by rewrite filter_nil, app_nil_r.
Qed.

Lemma press_eq b c :
  press b c =
  if has_indicator c then
    set_indicator_class (class_toggle "active" b (indicator_class c))
      (set_buttons b (negb b) c)
  else set_buttons b (negb b) c.
Proof. reflexivity. Qed.

Lemma press_false_true c :
  card_ok c → start_disabled c = false → press false (press true c) = c.
Proof.
  intros [Hbtn Hact] Hstart. rewrite (press_eq true c).
  destruct (has_indicator c) eqn:Hind; rewrite press_eq.
  - assert (has_indicator
              (set_indicator_class
                 (class_toggle "active" true (indicator_class c))
                 (set_buttons true (negb true) c)) = true) as ->.
    { unfold has_indicator; simpl. by apply class_toggle_other_kept. }
    cbn -[class_toggle]. rewrite class_toggle_undo by (rewrite Hact by done; done).
    destruct c; simpl in *. by rewrite Hbtn, Hstart.
  - assert (has_indicator (set_buttons true (negb true) c) = false) as ->
      by exact Hind.
    destruct c; simpl in *. by rewrite Hbtn, Hstart.
Qed.

Lemma initVideoStream_found cameraId st c :
  query (is_camera cameraId) (grid st) = Some c →
  grid (initVideoStream cameraId st) =
    mutate (is_camera cameraId) (set_videos [attached_video cameraId st]) (grid st)
  ∧ players (initVideoStream cameraId st) =
      (if hls_supported st then players st ++ [attached_player cameraId]
       else players st).
Proof.
  intros Hq. unfold initVideoStream, attached_video. rewrite Hq.
  by destruct (hls_supported st), (native_hls st).
Qed.

Lemma destroyVideoStream_found cameraId st c :
  query (is_camera cameraId) (grid st) = Some c →
  grid (destroyVideoStream cameraId st) =
    mutate (is_camera cameraId) (set_videos (tail (videos c))) (grid st)
  ∧ (head (videos c) ≫= video_hls = None →
     players (destroyVideoStream cameraId st) = players st).
Proof.
  intros Hq. unfold destroyVideoStream. rewrite Hq.
  destruct (videos c) as [|video rest] eqn:Hvideos; simpl.
  - split; [|done]. symmetry. apply (mutate_first_fixed _ _ _ c); [done|].
    destruct c; simpl in *. by rewrite Hvideos.
  - destruct (video_hls video); simpl; split; done.
Qed.

Lemma updateButtonStates_at cameraId b st i c :
  NoDup (card_camera <$> grid st) → grid st !! i = Some c →
  card_camera c = cameraId →
  grid (updateButtonStates cameraId b st) !! i = Some (press b c)
  ∧ NoDup (card_camera <$> grid (updateButtonStates cameraId b st)).
Proof.
  intros Hnd Hi <-. unfold updateButtonStates; simpl. split.
  - by apply mutate_lookup_nodup.
  - rewrite mutate_fmap; [done|]. apply press_camera.
Qed.

Lemma resume_frame cameraId action outcome st :
  let st' := handleControlAction_resume cameraId action outcome st in
  requests st' = requests st ∧ cameras st' = cameras st
  ∧ hls_supported st' = hls_supported st ∧ native_hls st' = native_hls st.
Proof. by page_frame. Qed.

(** The card a successful action leaves where the clicked card was. *)
Lemma resume_ok_at b data st i c :
  NoDup (card_camera <$> grid st) → grid st !! i = Some c →
  let st' := handleControlAction_resume (card_camera c) (dataset_action b)
               (Replied true data) st in
  grid st' !! i =
    Some (set_videos
            (match b with
             | StartBtn => [attached_video (card_camera c) st]
             | StopBtn => tail (videos c)
             end)
            (press (started_by b) c))
  ∧ alerts st' = alerts st
  ∧ match b with
    | StartBtn =>
        players st' =
          (if hls_supported st then players st ++ [attached_player (card_camera c)]
           else players st)
    | StopBtn => head (videos c) ≫= video_hls = None → players st' = players st
    end.
Proof.
  intros Hnd Hi st'. subst st'. unfold handleControlAction_resume.
  destruct b; simpl.
  - destruct (updateButtonStates_at (card_camera c) true st i c Hnd Hi eq_refl)
      as [Hi1 Hnd1].
    set (st1 := updateButtonStates (card_camera c) true st) in *.
    assert (query (is_camera (card_camera c)) (grid st1) = Some (press true c)) as Hq.
    { rewrite <- (press_camera true c). by apply (query_nodup _ i). }
    destruct (initVideoStream_found _ _ _ Hq) as [Hgrid Hplayers].
    rewrite Hgrid, Hplayers. split; [|split; [|done]].
    + rewrite <- (press_camera true c) at 1.
      by rewrite (mutate_lookup_nodup _ _ i (press true c)) by done.
    + apply (initVideoStream_frame (card_camera c) st1).
  - destruct (updateButtonStates_at (card_camera c) false st i c Hnd Hi eq_refl)
      as [Hi1 Hnd1].
    set (st1 := updateButtonStates (card_camera c) false st) in *.
    assert (query (is_camera (card_camera c)) (grid st1) = Some (press false c)) as Hq.
    { rewrite <- (press_camera false c). by apply (query_nodup _ i). }
    destruct (destroyVideoStream_found _ _ _ Hq) as [Hgrid Hplayers].
    rewrite Hgrid. rewrite press_videos in *. split; [|split; [|done]].
    + rewrite <- (press_camera false c) at 1.
      by rewrite (mutate_lookup_nodup _ _ i (press false c)) by done.
    + apply (destroyVideoStream_frame (card_camera c) st1).
Qed.

Lemma press_disables b c :
  button_disabled b (press (started_by b) c) = true
  ∧ button_disabled (other_button b) (press (started_by b) c) = false.
Proof.
  destruct b; simpl.
  - by destruct (press_buttons true c) as [-> ->].
  - by destruct (press_buttons false c) as [-> ->].
Qed.

(** X6: on every page reached with selector-safe ids, once a click on an
    enabled control button
    has succeeded, that button is disabled and the other one enabled on
    the clicked card, so a further click on the same button is dropped: no
    request is sent and the page does not change.  This is the only guard
    against a repeated start or stop. *)
Theorem X6_successful_click_disables_button
  (st : Page) (i : nat) (card : Card) (b : Button) (data : Body) :
  safely_reachable st → grid st !! i = Some card →
  button_disabled b card = false →
  let st1 := controlClick i b (Replied true data) st in
  (∃ card1, grid st1 !! i = Some card1
          ∧ button_disabled b card1 = true
          ∧ button_disabled (other_button b) card1 = false)
  ∧ controlClick_request i b st1 = st1
  ∧ ∀ outcome, controlClick i b outcome st1 = st1.
Proof.
  intros Hreach Hi Hen st1.
  destruct (safely_reachable_ok st Hreach) as (_ & Hids & _ & _).
  assert (∃ card1, grid st1 !! i = Some card1
                 ∧ button_disabled b card1 = true
                 ∧ button_disabled (other_button b) card1 = false)
    as (card1 & Hi1 & Hdis & Hother).
  { subst st1. unfold controlClick. rewrite Hi, Hen. unfold handleControlAction.
    destruct (resume_ok_at b data
                (handleControlAction_request (card_camera card) (dataset_action b) st)
                i card Hids Hi) as (Hcard & _).
    eexists. split; [exact Hcard|]. apply (press_disables b card). }
  split; [by exists card1|].
  unfold controlClick_request, controlClick. by rewrite Hi1, Hdis.
Qed.

Lemma X6_successful_click_disables_button_witness :
  let st1 := controlClick 0 StartBtn (Replied true (ObjectBody None)) (page_with "2") in
  controlClick_request 0 StartBtn st1 = st1
  ∧ controlClick 0 StartBtn (Replied true (ObjectBody None)) st1 = st1.
Proof.
  destruct (X6_successful_click_disables_button (page_with "2") 0 (fresh_card "2")
              StartBtn (ObjectBody None))
    as (_ & Hreq & Hclick).
  - exists true, false, [Typed "2"; AddCameraClicked]. split; reflexivity.
  - reflexivity.
  - reflexivity.
  - split; [exact Hreq | apply Hclick].
Defined.

Lemma attached_video_unlinked cameraId st :
  video_hls (attached_video cameraId st) = None.
Proof. unfold attached_video. by destruct (hls_supported st), (native_hls st). Qed.

(** X7: on every page reached with selector-safe ids, a successful start
    followed by a successful
    stop on a card whose Start button was enabled brings the card back to
    what it was, with an empty video container; but the stop calls nothing on
    the player that the start created, which stays, not destroyed, in the
    page. *)
Theorem X7_start_then_stop
  (st : Page) (i : nat) (card : Card) (d1 d2 : Body) :
  safely_reachable st → grid st !! i = Some card →
  start_disabled card = false →
  let st1 := controlClick i StartBtn (Replied true d1) st in
  let st2 := controlClick i StopBtn (Replied true d2) st1 in
  grid st2 !! i = Some (set_videos [] card)
  ∧ players st2 = players st1
  ∧ (hls_supported st = true →
       players st2 = players st ++ [attached_player (card_camera card)]
       ∧ destroyed (attached_player (card_camera card)) = false).
Proof.
  intros Hreach Hi Hstart st1 st2.
  destruct (safely_reachable_ok st Hreach) as (_ & Hids & _ & Hcards).
  assert (card_ok card) as Hok.
  { rewrite Forall_forall in Hcards. apply Hcards. by apply list_elem_of_lookup_2 with i. }
  set (id := card_camera card) in *.
  set (card1 := set_videos [attached_video id st] (press true card)).
  assert (st1 = handleControlAction_resume id "start" (Replied true d1)
                  (handleControlAction_request id "start" st)) as Hst1.
  { subst st1. unfold controlClick. simpl. by rewrite Hi, Hstart. }
  assert (grid st1 !! i = Some card1
          ∧ players st1 =
              (if hls_supported st then players st ++ [attached_player id]
               else players st)) as [Hi1 Hplayers1].
  { rewrite Hst1.
    destruct (resume_ok_at StartBtn d1 (handleControlAction_request id "start" st)
                i card Hids Hi) as (H1 & _ & H2).
    split; [exact H1 | exact H2]. }
  assert (NoDup (card_camera <$> grid st1)) as Hids1.
  { rewrite Hst1. apply handleControlAction_resume_ok, handleControlAction_request_ok.
    by apply safely_reachable_ok. }
  assert (card_camera card1 = id) as Hid1 by apply press_camera.
  assert (st2 = handleControlAction_resume id "stop" (Replied true d2)
                  (handleControlAction_request id "stop" st1)) as Hst2.
  { subst st2. unfold controlClick. rewrite Hi1, Hid1. simpl.
    by destruct (press_buttons true card) as [_ ->]. }
  assert (grid st2 !! i = Some (set_videos [] (press false card1))
          ∧ players st2 = players st1) as [Hi2 Hsame].
  { rewrite <- Hid1 in Hst2. rewrite Hst2.
    destruct (resume_ok_at StopBtn d2
                (handleControlAction_request (card_camera card1) "stop" st1)
                i card1 Hids1 Hi1) as (H1 & _ & H2).
    split; [exact H1|]. apply H2. apply attached_video_unlinked. }
  split; [|split; [done|]].
  - rewrite Hi2. f_equal. subst card1. rewrite press_set_videos.
    by rewrite press_false_true.
  - intros Hhls. rewrite Hsame, Hplayers1, Hhls. done.
Qed.

Lemma X7_start_then_stop_witness :
  let st1 := controlClick 0 StartBtn (Replied true (ObjectBody None)) (page_with "2") in
  let st2 := controlClick 0 StopBtn (Replied true (ObjectBody None)) st1 in
  grid st2 !! 0 = Some (fresh_card "2")
  ∧ players st2 = [attached_player "2"].
Proof.
  destruct (X7_start_then_stop (page_with "2") 0 (fresh_card "2")
              (ObjectBody None) (ObjectBody None))
    as (Hcard & _ & Hplayers).
  - exists true, false, [Typed "2"; AddCameraClicked]. split; reflexivity.
  - reflexivity.
  - reflexivity.
  - split; [exact Hcard | exact (proj1 (Hplayers eq_refl))].
Defined.

Lemma handleControlAction_resume_failed cameraId action outcome st :
  control_failed outcome = true →
  ∃ text, handleControlAction_resume cameraId action outcome st =
          handleControlAction_catch cameraId action text st.
Proof.
  intros Hfail. unfold handleControlAction_resume.
  destruct outcome as [m|ok m|ok [te|msg]]; simpl in Hfail;
    try (destruct ok; [done|]); by eexists.
Qed.

(** ** Failures of control requests, whenever they arrive *)





(** ** Clicks while a request is pending *)

(** X8: nothing blocks a second click while the first request is pending.
    On every page reached with selector-safe ids, two clicks on an enabled
    Start button send two
    requests; when the first then succeeds and the second fails, the failure
    resets the buttons over the success: the card is left as it was (Start
    enabled, Stop disabled) but with the video element attached, and the
    player the success created is still in the page. *)
Theorem X8_pending_click_not_blocked
  (st : Page) (i : nat) (card : Card) (data : Body) (outcome : FetchOutcome) :
  safely_reachable st → grid st !! i = Some card →
  start_disabled card = false → control_failed outcome = true →
  let id := card_camera card in
  let st' := run_from st
               [ControlClicked i StartBtn; ControlClicked i StartBtn;
                ControlSettled id "start" (Replied true data);
                ControlSettled id "start" outcome] in
  requests st' =
    requests st ++ [control_request "/api/start-streams" id;
                    control_request "/api/start-streams" id]
  ∧ grid st' !! i = Some (set_videos [attached_video id st] card)
  ∧ (hls_supported st = true → players st' = players st ++ [attached_player id]).
Proof.
  intros Hreach Hi Hstart Hfail id st'.
  pose proof (safely_reachable_ok st Hreach) as Hok.
  destruct Hok as (Hcams & Hids & Hsub & Hcards).
  assert (card_ok card) as Hcard.
  { rewrite Forall_forall in Hcards. apply Hcards. by apply list_elem_of_lookup_2 with i. }
  set (s1 := handleControlAction_request id "start" st).
  set (s2 := handleControlAction_request id "start" s1).
  set (s3 := handleControlAction_resume id "start" (Replied true data) s2).
  destruct (handleControlAction_resume_failed id "start" outcome s3 Hfail)
    as (text & Hs4).
  assert (st' = handleControlAction_catch id "start" text s3) as ->.
  { assert (controlClick_request i StartBtn st = s1) as E1.
    { unfold controlClick_request, button_disabled. by rewrite Hi, Hstart. }
    assert (controlClick_request i StartBtn s1 = s2) as E2.
    { unfold controlClick_request, button_disabled.
      change (grid s1) with (grid st). by rewrite Hi, Hstart. }
    subst st'.
    change (handleControlAction_resume id "start" outcome
              (handleControlAction_resume id "start" (Replied true data)
                 (controlClick_request i StartBtn
                    (controlClick_request i StartBtn st))) =
            handleControlAction_catch id "start" text s3).
    by rewrite E1, E2. }
  assert (page_ok s2) as Hok2.
  { apply handleControlAction_request_ok, handleControlAction_request_ok.
    by apply safely_reachable_ok. }
  assert (grid s3 !! i = Some (set_videos [attached_video id st] (press true card))
          ∧ players s3 =
              (if hls_supported st then players st ++ [attached_player id]
               else players st)) as [Hi3 Hplayers3].
  { destruct (resume_ok_at StartBtn data s2 i card Hids Hi) as (H1 & _ & H2).
    split; [exact H1 | exact H2]. }
  assert (NoDup (card_camera <$> grid s3)) as Hids3.
  { by apply (handleControlAction_resume_ok id "start" (Replied true data) s2). }
  split; [|split].
  - change (requests (handleControlAction_catch id "start" text s3))
      with (requests s3).
    unfold s3. rewrite (proj1 (resume_frame id "start" (Replied true data) s2)).
    unfold s2, s1, handleControlAction_request, fetch; simpl.
    by rewrite <- app_assoc.
  - change (handleControlAction_catch id "start" text s3)
      with (updateButtonStates id false
              (alert (failure_alert id "start" text) s3)).
    destruct (updateButtonStates_at id false
                (alert (failure_alert id "start" text) s3) i
                (set_videos [attached_video id st] (press true card)))
      as [Hi4 _]; [exact Hids3 | exact Hi3 | apply press_camera |].
    rewrite Hi4. f_equal.
    rewrite press_set_videos. by rewrite press_false_true.
  - intros Hhls.
    change (players (handleControlAction_catch id "start" text s3))
      with (players s3).
    by rewrite Hplayers3, Hhls.
Qed.

Lemma X8_pending_click_not_blocked_witness :
  let st' := run_from (page_with "2")
               [ControlClicked 0 StartBtn; ControlClicked 0 StartBtn;
                ControlSettled "2" "start" (Replied true (ObjectBody None));
                ControlSettled "2" "start" (FetchRejected "Failed to fetch")] in
  grid st' !! 0 = Some (set_videos [new_video] (fresh_card "2"))
  ∧ players st' = [attached_player "2"].
Proof.
  destruct (X8_pending_click_not_blocked (page_with "2") 0 (fresh_card "2")
              (ObjectBody None) (FetchRejected "Failed to fetch"))
    as (_ & Hcard & Hplayers).
  - exists true, false, [Typed "2"; AddCameraClicked]. split; reflexivity.
  - reflexivity.
  - reflexivity.
  - reflexivity.
  - split; [exact Hcard | exact (Hplayers eq_refl)].
Defined.

(** ** Players are never released by the page *)

Lemma query_elem_of matches g c : query matches g = Some c → c ∈ g.
Proof.
  induction g as [|d g IH]; simpl; [done|].
  destruct (matches d); [intros [= ->]; by left | intros Hq; right; auto].
Qed.

Lemma unlinked_mutate matches f st :
  (∀ c, Forall (fun v => video_hls v = None) (videos c) →
        Forall (fun v => video_hls v = None) (videos (f c))) →
  videos_unlinked st → videos_unlinked (set_grid (mutate matches f (grid st)) st).
Proof. intros Hf Hst. unfold videos_unlinked; simpl. by apply mutate_Forall. Qed.

Lemma updateButtonStates_unlinked cameraId b st :
  videos_unlinked st → videos_unlinked (updateButtonStates cameraId b st).
Proof.
  intros Hst. apply unlinked_mutate; [|done]. intros c. by rewrite press_videos.
Qed.

Lemma initVideoStream_unlinked cameraId st :
  videos_unlinked st → videos_unlinked (initVideoStream cameraId st).
Proof.
  intros Hst. destruct (query (is_camera cameraId) (grid st)) as [c|] eqn:Hq.
  - unfold videos_unlinked. rewrite (proj1 (initVideoStream_found _ _ _ Hq)).
    apply mutate_Forall; [|done]. intros d _. simpl.
    constructor; [apply attached_video_unlinked | constructor].
  - unfold initVideoStream. by rewrite Hq.
Qed.

Lemma destroyVideoStream_unlinked cameraId st :
  videos_unlinked st → videos_unlinked (destroyVideoStream cameraId st).
Proof.
  intros Hst. destruct (query (is_camera cameraId) (grid st)) as [c|] eqn:Hq.
  - unfold videos_unlinked. rewrite (proj1 (destroyVideoStream_found _ _ _ Hq)).
    apply mutate_Forall; [|done]. intros d _. simpl.
    unfold videos_unlinked in Hst. rewrite Forall_forall in Hst.
    pose proof (Hst c (query_elem_of _ _ _ Hq)) as Hc.
    destruct (videos c) as [|v rest]; simpl; [constructor|].
    by apply Forall_cons in Hc as [_ Hrest].
  - unfold destroyVideoStream. by rewrite Hq.
Qed.

(** With no video linked to a player, [destroyVideoStream] finds no player
    to destroy. *)
Lemma destroyVideoStream_players cameraId st :
  videos_unlinked st → players (destroyVideoStream cameraId st) = players st.
Proof.
  intros Hst. destruct (query (is_camera cameraId) (grid st)) as [c|] eqn:Hq.
  - apply (proj2 (destroyVideoStream_found _ _ _ Hq)).
    unfold videos_unlinked in Hst. rewrite Forall_forall in Hst.
    pose proof (Hst c (query_elem_of _ _ _ Hq)) as Hc.
    destruct (videos c) as [|v rest]; simpl; [done|].
    by apply Forall_cons in Hc as [Hv _].
  - unfold destroyVideoStream. by rewrite Hq.
Qed.

Lemma resume_unlinked cameraId action outcome st :
  videos_unlinked st →
  videos_unlinked (handleControlAction_resume cameraId action outcome st).
Proof.
  intros Hst.
  assert (∀ m, videos_unlinked (handleControlAction_catch cameraId action m st))
    as Hcatch.
  { intros m. unfold handleControlAction_catch. by apply updateButtonStates_unlinked. }
  unfold handleControlAction_resume.
  destruct outcome as [m|ok m|[|] [te|msg]]; try apply Hcatch;
    case_bool_decide;
    first [ apply initVideoStream_unlinked | apply destroyVideoStream_unlinked ];
    by apply updateButtonStates_unlinked.
Qed.

Lemma refresh_unlinked status l g :
  Forall (fun card => Forall (fun v => video_hls v = None) (videos card)) g →
  Forall (fun card => Forall (fun v => video_hls v = None) (videos card))
    (foldl (refresh_indicator status) g l).
Proof.
  revert g. induction l as [|camId l IH]; intros g Hg; simpl; [done|].
  apply IH. unfold refresh_indicator. by apply mutate_Forall.
Qed.

Lemma step_unlinked st ev : videos_unlinked st → videos_unlinked (step st ev).
Proof.
  intros Hst.
  destruct ev as [value| |i b|cameraId action outcome| |outcome|outcome|i data];
    simpl; try exact Hst.
  - unfold addCameraClick. case_match; [|done].
    unfold createCameraCard. case_match; [done|].
    unfold videos_unlinked; simpl. apply Forall_app. split; [done|].
    constructor; [constructor | constructor].
  - unfold controlClick_request. destruct (grid st !! i) as [card|]; [|done].
    by destruct (button_disabled b card).
  - by apply resume_unlinked.
  - unfold pollTick_resume. destruct outcome as [|[snapshot|]]; try exact Hst.
    unfold videos_unlinked, updateStatusDisplay; simpl. by apply refresh_unlinked.
  - unfold initialLoadCameras_then. destruct outcome as [|[snapshot|]]; try exact Hst.
    rewrite renderCameraGrid_empties. constructor.
Qed.

Lemma reachable_unlinked st : reachable st → videos_unlinked st.
Proof.
  intros (hls & native & events & ->).
  induction events as [|ev events IH] using rev_ind.
  - constructor.
  - rewrite run_snoc. by apply step_unlinked.
Qed.

(** X9: on every reachable page no video element has its [hls] property set
    ([initVideoStream] never assigns it), so [destroyVideoStream] never
    calls [hls.destroy()]: it, and with it a successful stop, leaves every
    player as it was. *)
Theorem X9_stop_releases_no_player
  (st : Page) (cameraId : string) (data : Body) :
  reachable st →
  videos_unlinked st
  ∧ players (destroyVideoStream cameraId st) = players st
  ∧ players (handleControlAction cameraId "stop" (Replied true data) st) = players st.
Proof.
  intros Hreach. pose proof (reachable_unlinked st Hreach) as Hst.
  split; [done|]. split; [by apply destroyVideoStream_players|].
  unfold handleControlAction, handleControlAction_resume. simpl.
  rewrite destroyVideoStream_players; [done|].
  by apply updateButtonStates_unlinked.
Qed.

Lemma X9_stop_releases_no_player_witness :
  players (handleControlAction "2" "stop" (Replied true (ObjectBody None)) live_page)
  = [attached_player "2"].
Proof.
  destruct (X9_stop_releases_no_player live_page "2" (ObjectBody None))
    as (_ & _ & Hplayers).
  - exists true, false,
      [Typed "2"; AddCameraClicked; ControlClicked 0 StartBtn;
       ControlSettled "2" "start" (Replied true (ObjectBody None))].
    reflexivity.
  - exact Hplayers.
Defined.

Lemma attached_player_alive cameraId : destroyed (attached_player cameraId) = false.
Proof.
  apply bool_decide_eq_false. unfold attached_player; simpl. intros Hin.
  repeat (apply elem_of_cons in Hin as [Heq|Hin]; [discriminate Heq|]).
  by apply elem_of_nil in Hin.
Qed.

Lemma initVideoStream_alive cameraId st :
  Forall (fun p => destroyed p = false) (players st) →
  Forall (fun p => destroyed p = false) (players (initVideoStream cameraId st)).
Proof.
  intros Hst. destruct (query (is_camera cameraId) (grid st)) as [c|] eqn:Hq.
  - rewrite (proj2 (initVideoStream_found _ _ _ Hq)).
    destruct (hls_supported st); [|done].
    apply Forall_app. split; [done|].
    constructor; [apply attached_player_alive | constructor].
  - unfold initVideoStream. by rewrite Hq.
Qed.

Lemma step_alive st ev :
  videos_unlinked st → spares_players ev = true →
  Forall (fun p => destroyed p = false) (players st) →
  Forall (fun p => destroyed p = false) (players (step st ev)).
Proof.
  intros Hun Hev Hst.
  destruct ev as [value| |i b|cameraId action outcome| |outcome|outcome|i data];
    simpl; try exact Hst.
  - unfold addCameraClick. case_match; [|done].
    unfold createCameraCard. by case_match.
  - unfold controlClick_request. destruct (grid st !! i) as [card|]; [|done].
    by destruct (button_disabled b card).
  - unfold handleControlAction_resume.
    destruct outcome as [m|ok m|[|] [te|msg]]; try exact Hst;
      case_bool_decide;
      first [ by apply initVideoStream_alive
            | rewrite destroyVideoStream_players;
              [exact Hst | by apply updateButtonStates_unlinked] ].
  - unfold pollTick_resume. by destruct outcome as [|[snapshot|]].
  - unfold initialLoadCameras_then. destruct outcome as [|[snapshot|]]; try exact Hst.
    by rewrite renderCameraGrid_empties.
  - apply Forall_alter; [done|]. intros p _ Hp.
    rewrite on_hls_error_destroyed, Hp. simpl in Hev.
    by apply negb_true_iff in Hev.
Qed.

(** X10: the page itself never destroys a player.  In every run of events
    in which no fatal error of a type other than network or media is
    delivered to a player, every player ever created is still not destroyed,
    whatever cameras were started and stopped. *)
Theorem X10_players_only_destroyed_by_errors
  (hls native : bool) (events : list PageEvent) :
  forallb spares_players events = true →
  Forall (fun p => destroyed p = false) (players (run hls native events)).
Proof.
  induction events as [|ev events IH] using rev_ind; intros Hev.
  - constructor.
  - rewrite forallb_app in Hev. apply andb_true_iff in Hev as [Hevents Hlast].
    simpl in Hlast. rewrite andb_true_r in Hlast.
    rewrite run_snoc. apply step_alive; [|done|by apply IH].
    apply reachable_unlinked. by exists hls, native, events.
Qed.

Lemma X10_players_only_destroyed_by_errors_witness :
  Forall (fun p => destroyed p = false)
    (players (run true false
                [Typed "2"; AddCameraClicked; ControlClicked 0 StartBtn;
                 ControlSettled "2" "start" (Replied true (ObjectBody None));
                 HlsErrored 0 media_fatal; ControlClicked 0 StopBtn;
                 ControlSettled "2" "stop" (Replied true (ObjectBody None))])).
Proof.
  apply (X10_players_only_destroyed_by_errors true false
           [Typed "2"; AddCameraClicked; ControlClicked 0 StartBtn;
            ControlSettled "2" "start" (Replied true (ObjectBody None));
            HlsErrored 0 media_fatal; ControlClicked 0 StopBtn;
            ControlSettled "2" "stop" (Replied true (ObjectBody None))]).
  reflexivity.
Defined.

(** ** The indicator after a poll has written it *)

Lemma mutate_lookup_cases matches f g i c :
  g !! i = Some c →
  mutate matches f g !! i = Some c
  ∨ (matches c = true ∧ mutate matches f g !! i = Some (f c)).
Proof.
  revert i. induction g as [|d g IH]; intros i Hi; [done|].
  simpl. destruct (matches d) eqn:Hd; destruct i as [|i]; simpl in *.
  - injection Hi as ->. right. by split.
  - by left.
  - by left.
  - by apply IH.
Qed.

Lemma indicator_mutate matches f st i cls :
  (∀ c, indicator_class c = cls → indicator_class (f c) = cls) →
  indicator_at i cls st →
  indicator_at i cls (set_grid (mutate matches f (grid st)) st).
Proof.
  intros Hf (c & Hi & Hc). unfold indicator_at; simpl.
  destruct (mutate_lookup_cases matches f (grid st) i c Hi) as [Hsame | [_ Hf']].
  - by exists c.
  - exists (f c). split; [done | by apply Hf].
Qed.

Lemma press_keeps_written b c cls :
  class_contains "status-indicator" cls = false →
  indicator_class c = cls → indicator_class (press b c) = cls.
Proof.
  intros Hcls Hc. rewrite press_eq. unfold has_indicator. by rewrite Hc, Hcls.
Qed.

Lemma updateButtonStates_keeps_written cameraId b st i cls :
  class_contains "status-indicator" cls = false →
  indicator_at i cls st → indicator_at i cls (updateButtonStates cameraId b st).
Proof.
  intros Hcls Hst. apply indicator_mutate; [|done].
  intros c. by apply press_keeps_written.
Qed.

Lemma initVideoStream_keeps_written cameraId st i cls :
  indicator_at i cls st → indicator_at i cls (initVideoStream cameraId st).
Proof.
  intros Hst. destruct (query (is_camera cameraId) (grid st)) as [c|] eqn:Hq.
  - unfold indicator_at. rewrite (proj1 (initVideoStream_found _ _ _ Hq)).
    by apply (indicator_mutate _ _ st).
  - unfold initVideoStream. by rewrite Hq.
Qed.

Lemma destroyVideoStream_keeps_written cameraId st i cls :
  indicator_at i cls st → indicator_at i cls (destroyVideoStream cameraId st).
Proof.
  intros Hst. destruct (query (is_camera cameraId) (grid st)) as [c|] eqn:Hq.
  - unfold indicator_at. rewrite (proj1 (destroyVideoStream_found _ _ _ Hq)).
    by apply (indicator_mutate _ _ st).
  - unfold destroyVideoStream. by rewrite Hq.
Qed.

Lemma updateStatusDisplay_keeps_written status st i cls :
  class_contains "status-indicator" cls = false →
  indicator_at i cls st → indicator_at i cls (updateStatusDisplay status st).
Proof.
  intros Hcls (c & Hi & Hc). exists c. split; [|done].
  unfold updateStatusDisplay; simpl. apply refresh_marked; [done|].
  unfold has_indicator. by rewrite Hc.
Qed.

Lemma step_keeps_written st ev i cls :
  class_contains "status-indicator" cls = false → keeps_grid ev = true →
  indicator_at i cls st → indicator_at i cls (step st ev).
Proof.
  intros Hcls Hev Hst.
  destruct ev as [value| |j b|cameraId action outcome| |outcome|outcome|j data];
    simpl; try exact Hst.
  - unfold addCameraClick. case_match; [|done].
    unfold createCameraCard. case_match; [done|].
    destruct Hst as (c & Hi & Hc). exists c. split; [|done]. simpl.
    rewrite lookup_app_l; [done|]. by apply lookup_lt_Some with c.
  - unfold controlClick_request. destruct (grid st !! j) as [card|]; [|done].
    by destruct (button_disabled b card).
  - assert (∀ m, indicator_at i cls (handleControlAction_catch cameraId action m st))
      as Hcatch.
    { intros m. unfold handleControlAction_catch.
      by apply updateButtonStates_keeps_written. }
    unfold handleControlAction_resume.
    destruct outcome as [m|ok m|[|] [te|msg]]; try apply Hcatch;
      case_bool_decide;
      first [ apply initVideoStream_keeps_written
            | apply destroyVideoStream_keeps_written ];
      by apply updateButtonStates_keeps_written.
  - unfold pollTick_resume. destruct outcome as [|[snapshot|]]; try exact Hst.
    by apply updateStatusDisplay_keeps_written.
  - unfold initialLoadCameras_then.
    by destruct outcome as [|[snapshot|]].
Qed.

Lemma run_from_keeps_written events st i cls :
  class_contains "status-indicator" cls = false →
  forallb keeps_grid events = true →
  indicator_at i cls st → indicator_at i cls (run_from st events).
Proof.
  intros Hcls. revert st. induction events as [|ev events IH]; intros st Hev Hst.
  - exact Hst.
  - simpl in Hev. apply andb_true_iff in Hev as [Hhead Hrest].
    apply (IH (step st ev)); [done|]. by apply step_keeps_written.
Qed.

(** X11: with selector-safe ids throughout, the indicator of a camera is
    written by the first status response that finds it and by nothing after
    that.  The class it is given,
    [status-dot healthy] or [status-dot error], no longer carries
    [status-indicator], so later responses do not find it and control
    actions no longer toggle it: through every later run of events that does
    not empty the grid, the card keeps showing the result of that first
    response. *)
Theorem X11_indicator_written_once
  (status : gmap string StreamInfo) (st : Page) (cam : string) (c : Card)
  (events : list PageEvent) :
  page_safe st = true →
  safe_run_from (updateStatusDisplay status st) events = true →
  cam ∈ cameras st →
  query (is_camera_indicator cam) (grid st) = Some c →
  forallb keeps_grid events = true →
  ∃ i, grid st !! i = Some c
     ∧ indicator_at i (status_class (status !! cam))
         (run_from (updateStatusDisplay status st) events).
Proof.
  intros _ _ Hcam Hq Hev.
  destruct (updateStatusDisplay_indicator status st cam c Hcam Hq) as (i & Hi & Hi').
  exists i. split; [done|].
  apply run_from_keeps_written; [|done|].
  - unfold status_class. by case_match.
  - eexists. split; [exact Hi' | done].
Qed.

Lemma X11_indicator_written_once_witness :
  ∃ i, grid live_page !! i = Some live_card
     ∧ indicator_at i ["status-dot"; "error"]
         (run_from (updateStatusDisplay down_snapshot live_page)
            [PollTicked; PollSettled (PollReplied (Some {[ "2" := {| main := true |} ]}));
             ControlClicked 0 StopBtn;
             ControlSettled "2" "stop" (Replied true (ObjectBody None))]).
Proof.
  destruct (X11_indicator_written_once down_snapshot live_page "2" live_card
              [PollTicked; PollSettled (PollReplied (Some {[ "2" := {| main := true |} ]}));
               ControlClicked 0 StopBtn;
               ControlSettled "2" "stop" (Replied true (ObjectBody None))])
    as (i & Hi & Hat).
  - reflexivity.
  - reflexivity.
  - vm_compute. by left.
  - reflexivity.
  - reflexivity.
  - exists i. split; [exact Hi|].
    replace (down_snapshot !! "2") with (Some {| main := false |}) in Hat
      by (symmetry; apply lookup_singleton_eq).
    exact Hat.
Defined.



(** ** The unused [updateCameraUI] *)

(** X13: on a page whose ids are selector-safe and for a selector-safe id,
    [updateCameraUI] throws exactly when the camera has no card; on a card
    it starts or removes the video like a control action, but it writes the
    Stop button only: Start and the indicator are left as they were, so that
    a start on a fresh card leaves both buttons enabled. *)
Theorem X13_updateCameraUI (cameraId action : string) (st : Page) :
  page_safe st = true → selector_safe cameraId = true →
  (updateCameraUI cameraId action st = None ↔
   query (is_camera cameraId) (grid st) = None)
  ∧ ∀ c st',
      query (is_camera cameraId) (grid st) = Some c →
      updateCameraUI cameraId action st = Some st' →
      ∃ c', query (is_camera cameraId) (grid st') = Some c'
          ∧ start_disabled c' = start_disabled c
          ∧ stop_disabled c' = negb (bool_decide (action = "start"))
          ∧ indicator_class c' = indicator_class c
          ∧ videos c' =
              (if bool_decide (action = "start")
               then [attached_video cameraId st] else tail (videos c)).
Proof.
  intros _ _. split.
  - unfold updateCameraUI. destruct (query (is_camera cameraId) (grid st)); [|done].
    by case_bool_decide.
  - intros c st' Hq. unfold updateCameraUI. rewrite Hq.
    case_bool_decide as Haction; intros [= <-].
    + set (f := fun card => set_buttons (start_disabled card) false card).
      set (st1 := set_grid (mutate (is_camera cameraId) f (grid st)) st).
      assert (query (is_camera cameraId) (grid st1) = Some (f c)) as Hq1.
      { unfold st1; simpl. rewrite query_mutate by done. by rewrite Hq. }
      rewrite (proj1 (initVideoStream_found _ _ _ Hq1)).
      rewrite query_mutate by done. rewrite Hq1. simpl. by eexists.
    + set (f := fun card => set_buttons (start_disabled card) true card).
      set (st1 := set_grid (mutate (is_camera cameraId) f (grid st)) st).
      assert (query (is_camera cameraId) (grid st1) = Some (f c)) as Hq1.
      { unfold st1; simpl. rewrite query_mutate by done. by rewrite Hq. }
      rewrite (proj1 (destroyVideoStream_found _ _ _ Hq1)).
      rewrite query_mutate by done. rewrite Hq1. simpl. by eexists.
Qed.

Lemma X13_updateCameraUI_witness :
  updateCameraUI "9" "start" (page_with "2") = None
  ∧ ∃ st' c', updateCameraUI "2" "start" (page_with "2") = Some st'
            ∧ query (is_camera "2") (grid st') = Some c'
            ∧ start_disabled c' = false ∧ stop_disabled c' = false.
Proof.
  destruct (X13_updateCameraUI "9" "start" (page_with "2") eq_refl eq_refl)
    as [Hnone _].
  destruct (X13_updateCameraUI "2" "start" (page_with "2") eq_refl eq_refl)
    as [_ Hsome].
  split; [by apply Hnone|].
  destruct (Hsome (fresh_card "2") _ eq_refl eq_refl)
    as (c' & Hq & Hstart & Hstop & _).
  eexists _, c'. split; [reflexivity|]. split; [exact Hq|].
  split; [exact Hstart | exact Hstop].
Defined.
